(** * Placeholder templating of prefect ([src/prefect/utilities/templating.py])

    A shallow embedding of [find_placeholders], [apply_values] and
    [resolve_block_document_references], and the properties of them
    that the specification states.

    Python strings are modelled as Rocq [string]s, read as sequences of
    code points below 256; Python's [dict] as an association list in
    insertion order; exceptions as the [Raise] case of a result type. *)

From Equations Require Import Equations.
From Equations.Prop Require Import Logic.
From Stdlib Require Import List String Ascii ZArith NArith Bool Arith Lia
  Permutation DecimalString.
From Stdlib Require Import Floats.SpecFloat.
Import ListNotations.
Local Open Scope list_scope.
Local Open Scope string_scope.

(** * The program *)

(** ** Strings *)

Definition code (c : ascii) : N := N_of_ascii c.

Definition in_range (lo hi : N) (c : ascii) : bool :=
  (lo <=? code c)%N && (code c <=? hi)%N.

(** The class [\s] of Python's [re] on [str] patterns, for code points below 256. *)
Definition is_space (c : ascii) : bool :=
  in_range 9 13 c || in_range 28 32 c || in_range 133 133 c || in_range 160 160 c.

(** The class [\w] of Python's [re] on [str] patterns, for code points below 256. *)
Definition is_word (c : ascii) : bool :=
  in_range 48 57 c || in_range 65 90 c || in_range 95 95 c || in_range 97 122 c
  || in_range 170 170 c || in_range 178 179 c || in_range 181 181 c
  || in_range 185 186 c || in_range 188 190 c || in_range 192 214 c
  || in_range 216 246 c || in_range 248 255 c.

(** The class [[\w\.-]] of [PLACEHOLDER_CAPTURE_REGEX]. *)
Definition is_name_char (c : ascii) : bool :=
  is_word c || Ascii.eqb c "." || Ascii.eqb c "-".

(** [span p s] is the longest prefix of [s] whose characters satisfy [p],
    with the rest of [s]: a greedy [p*]. *)
Fixpoint span (p : ascii -> bool) (s : string) : string * string :=
  match s with
  | EmptyString => (EmptyString, EmptyString)
  | String c s' =>
      if p c then let (a, b) := span p s' in (String c a, b)
      else (EmptyString, s)
  end.

(** [strip_prefix p s] is [Some r] when [s = p ++ r]. *)
Fixpoint strip_prefix (p s : string) : option string :=
  match p, s with
  | EmptyString, _ => Some s
  | String a p', String b s' => if Ascii.eqb a b then strip_prefix p' s' else None
  | String _ _, EmptyString => None
  end.

Definition startswith (s p : string) : bool :=
  match strip_prefix p s with Some _ => true | None => false end.

Lemma append_assoc (a b c : string) : (a ++ b) ++ c = a ++ (b ++ c).
Proof. induction a; simpl; congruence. Qed.

Lemma append_nil_r (a : string) : a ++ "" = a.
Proof. induction a; simpl; congruence. Qed.

Lemma length_append (a b : string) :
  String.length (a ++ b) = String.length a + String.length b.
Proof. induction a; simpl; congruence. Qed.

(** Appends nested to the right, with literal prefixes reduced. *)
Ltac norm_append :=
  repeat (progress (cbn [append]; rewrite ?append_assoc, ?append_nil_r)).

Lemma strip_prefix_app (p s r : string) :
  strip_prefix p s = Some r -> s = p ++ r.
Proof.
  revert s; induction p as [|a p IH]; intros [|b s]; simpl; try congruence.
  destruct (Ascii.eqb_spec a b); try congruence.
  intros H; subst; f_equal; auto.
Qed.

Lemma strip_prefix_append (p r : string) : strip_prefix p (p ++ r) = Some r.
Proof. induction p; simpl; [|rewrite Ascii.eqb_refl]; auto. Qed.

Lemma strip_prefix_length (p s r : string) :
  strip_prefix p s = Some r -> String.length s = String.length p + String.length r.
Proof.
  intros H; apply strip_prefix_app in H; subst s.
  induction p; simpl; auto.
Qed.

(** [str.replace(old, new)] for a non-empty [old = String o olds]: the
    occurrences of [old] are replaced from the left, without overlap. *)
Equations? replace_ne (o : ascii) (olds new s : string) : string
  by wf (String.length s) lt :=
  replace_ne o olds new EmptyString := EmptyString;
  replace_ne o olds new (String c s') with inspect (strip_prefix (String o olds) (String c s')) := {
    | exist _ (Some rest) H => new ++ replace_ne o olds new rest;
    | exist _ None _ => String c (replace_ne o olds new s') }.
Proof.
  change (strip_prefix (String o olds) (String c s') = Some rest) in H.
  apply strip_prefix_length in H. simpl in *. lia.
Qed.

(** [str.replace(old, new)]; for an empty [old] Python puts [new] before
    every character and at the end. *)
Fixpoint intersperse (new s : string) : string :=
  match s with
  | EmptyString => new
  | String c s' => new ++ String c (intersperse new s')
  end.

Definition replace (old new s : string) : string :=
  match old with
  | EmptyString => intersperse new s
  | String o olds => replace_ne o olds new s
  end.

(** [str.split(sep)] for a one-character separator. *)
Fixpoint split (sep : ascii) (s : string) : list string :=
  match s with
  | EmptyString => [EmptyString]
  | String c s' =>
      if Ascii.eqb c sep then EmptyString :: split sep s'
      else match split sep s' with
           | h :: t => String c h :: t
           | [] => [String c EmptyString]
           end
  end.

(** [str(n)] of an integer. *)
Definition str_int (z : Z) : string := NilZero.string_of_int (Z.to_int z).

(** ** Placeholders *)

Definition BLOCK_DOCUMENT_PLACEHOLDER_PREFIX : string := "prefect.blocks.".

Inductive PlaceholderType : Type := STANDARD | BLOCK_DOCUMENT.

Record Placeholder : Type := mkPlaceholder {
  full_match : string;
  name : string;
  type : PlaceholderType
}.

Definition PlaceholderType_eqb (a b : PlaceholderType) : bool :=
  match a, b with
  | STANDARD, STANDARD | BLOCK_DOCUMENT, BLOCK_DOCUMENT => true
  | _, _ => false
  end.

Lemma Placeholder_eq_dec (p q : Placeholder) : {p = q} + {p <> q}.
Proof.
  decide equality; try apply string_dec. decide equality.
Defined.

Definition determine_placeholder_type (name : string) : PlaceholderType :=
  if startswith name BLOCK_DOCUMENT_PLACEHOLDER_PREFIX then BLOCK_DOCUMENT
  else STANDARD.

(** One match of [PLACEHOLDER_CAPTURE_REGEX], [({{\s*([\w\.-]+)\s*}})],
    at the start of [s]: the matched text, the name it captures and the
    rest of [s].  The three classes met in turn ([\s], [[\w\.-]] and the
    brace) are pairwise disjoint, so the greedy reading below is the only
    way the pattern can match at a position ([match_placeholder_iff]). *)
Definition match_placeholder (s : string) : option (string * string * string) :=
  match strip_prefix "{{" s with
  | None => None
  | Some s1 =>
      let (ws1, s2) := span is_space s1 in
      let (nm, s3) := span is_name_char s2 in
      match nm with
      | EmptyString => None
      | String _ _ =>
          let (ws2, s4) := span is_space s3 in
          match strip_prefix "}}" s4 with
          | None => None
          | Some rest => Some ("{{" ++ ws1 ++ nm ++ ws2 ++ "}}", nm, rest)
          end
      end
  end.

Lemma span_app (p : ascii -> bool) (s a b : string) :
  span p s = (a, b) -> s = a ++ b.
Proof.
  revert a b; induction s as [|c s IH]; simpl; intros a b H.
  - inversion H; reflexivity.
  - destruct (p c).
    + destruct (span p s) as [a' b'] eqn:E. inversion H; subst.
      simpl. f_equal. apply IH. reflexivity.
    + inversion H; reflexivity.
Qed.

Lemma match_placeholder_app (s full nm rest : string) :
  match_placeholder s = Some (full, nm, rest) -> s = full ++ rest.
Proof.
  unfold match_placeholder.
  destruct (strip_prefix "{{" s) as [s1|] eqn:E0; try discriminate.
  destruct (span is_space s1) as [ws1 s2] eqn:E1.
  destruct (span is_name_char s2) as [nm' s3] eqn:E2.
  destruct nm' as [|n0 nm']; try discriminate.
  destruct (span is_space s3) as [ws2 s4] eqn:E3.
  destruct (strip_prefix "}}" s4) as [rest'|] eqn:E4; try discriminate.
  intros H; inversion H; subst; clear H.
  apply span_app in E1, E2, E3. apply strip_prefix_app in E0, E4. subst.
  now norm_append.
Qed.

Lemma match_placeholder_length (s full nm rest : string) :
  match_placeholder s = Some (full, nm, rest) ->
  String.length rest < String.length s.
Proof.
  unfold match_placeholder.
  destruct (strip_prefix "{{" s) as [s1|] eqn:E0; try discriminate.
  destruct (span is_space s1) as [ws1 s2] eqn:E1.
  destruct (span is_name_char s2) as [nm' s3] eqn:E2.
  destruct nm' as [|n0 nm']; try discriminate.
  destruct (span is_space s3) as [ws2 s4] eqn:E3.
  destruct (strip_prefix "}}" s4) as [rest'|] eqn:E4; try discriminate.
  intros H; inversion H; subst; clear H.
  apply span_app in E1, E2, E3. apply strip_prefix_app in E0, E4. subst.
  rewrite !length_append. simpl. lia.
Qed.

(** [PLACEHOLDER_CAPTURE_REGEX.findall(s)]: the matches from the left,
    without overlap, each as (full match, name). *)
Equations? findall (s : string) : list (string * string)
  by wf (String.length s) lt :=
  findall EmptyString := [];
  findall (String c s') with inspect (match_placeholder (String c s')) := {
    | exist _ (Some (full, nm, rest)) H => (full, nm) :: findall rest;
    | exist _ None _ => findall s' }.
Proof.
  apply (match_placeholder_length _ _ _ _ H).
Qed.

(** [find_placeholders] on a string: the set of the placeholders found,
    kept as a list without repeats. *)
Definition find_placeholders_str (template : string) : list Placeholder :=
  nodup Placeholder_eq_dec
    (map (fun '(full_match, name) =>
            mkPlaceholder full_match name (determine_placeholder_type name))
         (findall template)).

(** ** Values *)

(** The values the functions walk: [None], [bool], [int], [float] (the
    IEEE 754 value), [str], [list], [dict] (string keys, in insertion
    order), and the class [NotSet] of [prefect.utilities.annotations] that
    serves as the sentinel. *)
#[local] Unset Elimination Schemes.
Inductive value : Type :=
| VNone
| VBool (b : bool)
| VInt (z : Z)
| VFloat (f : spec_float)
| VStr (s : string)
| VList (l : list value)
| VDict (d : list (string * value))
| VNotSet.
#[local] Set Elimination Schemes.

Abbreviation dict := (list (string * value)).

Section ValueInd.
Variable P : value -> Prop.
Hypothesis HNone : P VNone.
Hypothesis HBool : forall b, P (VBool b).
Hypothesis HInt : forall z, P (VInt z).
Hypothesis HFloat : forall f, P (VFloat f).
Hypothesis HStr : forall s, P (VStr s).
Hypothesis HList : forall l, Forall P l -> P (VList l).
Hypothesis HDict : forall d, Forall (fun kv => P (snd kv)) d -> P (VDict d).
Hypothesis HNotSet : P VNotSet.

Fixpoint value_ind' (v : value) : P v :=
  match v with
  | VNone => HNone
  | VBool b => HBool b
  | VInt z => HInt z
  | VFloat f => HFloat f
  | VStr s => HStr s
  | VList l =>
      HList l ((fix go (l : list value) : Forall P l :=
                  match l with
                  | [] => Forall_nil _
                  | x :: r => Forall_cons x (value_ind' x) (go r)
                  end) l)
  | VDict d =>
      HDict d ((fix go (d : dict) : Forall (fun kv => P (snd kv)) d :=
                  match d with
                  | [] => Forall_nil _
                  | (k, x) :: r =>
                      Forall_cons (k, x) (value_ind' x : P (snd (k, x))) (go r)
                  end) d)
  | VNotSet => HNotSet
  end.
End ValueInd.

Definition is_NotSet (v : value) : bool :=
  match v with VNotSet => true | _ => false end.

Definition is_None (v : value) : bool :=
  match v with VNone => true | _ => false end.

(** [d.get(k)] *)
Fixpoint dict_get {A : Type} (d : list (string * A)) (k : string) : option A :=
  match d with
  | [] => None
  | (k', v) :: r => if String.eqb k' k then Some v else dict_get r k
  end.

(** [d[k] = v]: the value of an existing key is replaced where it stands,
    a new key is appended. *)
Fixpoint dict_set {A : Type} (d : list (string * A)) (k : string) (v : A)
  : list (string * A) :=
  match d with
  | [] => [(k, v)]
  | (k', v') :: r =>
      if String.eqb k' k then (k', v) :: r else (k', v') :: dict_set r k v
  end.

Definition keys {A : Type} (d : list (string * A)) : list string := map fst d.

(** What the functions take from the Python runtime: the order in which a
    set of placeholders is iterated (it depends on the hashes of its
    elements, and is some arrangement of them), and [str()] of the values
    whose rendering is not modelled here (floats, lists and dicts). *)
Class PyRuntime : Type := {
  set_iter : list Placeholder -> list Placeholder;
  set_iter_perm : forall l, Permutation (set_iter l) l;
  str_other : value -> string
}.

Section Templating.

Context {rt : PyRuntime}.

(** [str(v)] *)
Definition py_str (v : value) : string :=
  match v with
  | VNone => "None"
  | VBool true => "True"
  | VBool false => "False"
  | VInt z => str_int z
  | VStr s => s
  | VNotSet => "<class 'prefect.utilities.annotations.NotSet'>"
  | VFloat _ | VList _ | VDict _ => str_other v
  end.

(** The body of the loop of [apply_values] over the placeholders of a
    string. *)
Definition interpolate_step (values : dict) (template : string) (p : Placeholder)
  : string :=
  match dict_get values (name p), type p with
  | Some v, STANDARD =>
      if is_None v then template
      else replace (full_match p) (py_str v) template
  | _, _ => template
  end.

(** The string case of [apply_values].  A set of one placeholder is
    matched as the list of that placeholder, which is what
    [list(placeholders)[0]] reads from it. *)
Definition apply_values_str (template : string) (values : dict) : value :=
  let placeholders := find_placeholders_str template in
  match placeholders with
  | [] => VStr template
  | p :: others =>
      if match others with [] => true | _ => false end
         && String.eqb (full_match p) template
         && PlaceholderType_eqb (type p) STANDARD
      then match dict_get values (name p) with
           | Some v => v
           | None => VNotSet
           end
      else VStr (fold_left (interpolate_step values) (set_iter placeholders) template)
  end.

Fixpoint apply_values (template : value) (values : dict) {struct template} : value :=
  match template with
  | VInt _ | VFloat _ | VBool _ | VNotSet | VNone => template
  | VStr s => apply_values_str s values
  | VDict d =>
      VDict (fold_left
               (fun updated_template '(key, v) =>
                  let updated_value := apply_values v values in
                  if is_NotSet updated_value then updated_template
                  else dict_set updated_template key updated_value)
               d [])
  | VList l =>
      VList (fold_left
               (fun updated_list v =>
                  let updated_value := apply_values v values in
                  if is_NotSet updated_value then updated_list
                  else (updated_list ++ [updated_value])%list)
               l [])
  end.

End Templating.

(** ** Exceptions *)

Inductive exn : Type :=
| ValueError_unexpected_type
    (* [find_placeholders]: "Unexpected type" *)
| ValueError_unpack (parts : nat)
    (* unpacking a list of [parts] elements into two names *)
| ValueError_invalid_template (template : string)
    (* [resolve_block_document_references]: "Invalid template" *)
| AttributeError_get
    (* [.get] on a value that is not a [dict] *)
| ClientError (msg : string)
    (* whatever the client raises *).

Inductive result (A : Type) : Type :=
| Ok (a : A)
| Raise (e : exn).
Arguments Ok {A} a.
Arguments Raise {A} e.

(** The results of a list of calls, or the first exception among them. *)
Fixpoint sequence {A : Type} (l : list (result A)) : result (list A) :=
  match l with
  | [] => Ok []
  | Raise e :: _ => Raise e
  | Ok a :: r =>
      match sequence r with
      | Ok r' => Ok (a :: r')
      | Raise e => Raise e
      end
  end.

(** [set().union( *sets )] *)
Definition set_union (sets : list (list Placeholder)) : list Placeholder :=
  nodup Placeholder_eq_dec (List.concat sets).

Fixpoint find_placeholders (template : value) : result (list Placeholder) :=
  match template with
  | VInt _ | VFloat _ | VBool _ => Ok []
  | VStr s => Ok (find_placeholders_str s)
  | VDict d =>
      match sequence (map (fun '(key, v) => find_placeholders v) d) with
      | Ok sets => Ok (set_union sets)
      | Raise e => Raise e
      end
  | VList l =>
      match sequence (map find_placeholders l) with
      | Ok sets => Ok (set_union sets)
      | Raise e => Raise e
      end
  | VNone | VNotSet => Raise ValueError_unexpected_type
  end.

(** ** The client and the calls made to it *)

Inductive client_result : Type :=
| Found (data : value)      (* the [data] of the block document read *)
| Failed (msg : string)     (* the client raised *).

(** The two methods of [PrefectClient] that are called. *)
Record Client : Type := {
  read_block_document : value -> client_result;
  read_block_document_by_name : string -> string -> client_result
    (* [name], [block_type_slug] *)
}.

Inductive call : Type :=
| ReadBlockDocument (block_document_id : value)
| ReadBlockDocumentByName (name block_type_slug : string).

(** A computation that awaits client calls: the calls made, in order, and
    the value returned or the exception raised. *)
Definition M (A : Type) : Type := list call * result A.

Definition ret {A : Type} (a : A) : M A := ([], Ok a).

Definition raise {A : Type} (e : exn) : M A := ([], Raise e).

Definition bind {A B : Type} (m : M A) (k : A -> M B) : M B :=
  match m with
  | (log, Ok a) => let (log', r) := k a in ((log ++ log')%list, r)
  | (log, Raise e) => (log, Raise e)
  end.

Notation "x <- m ;; k" := (bind m (fun x => k))
  (at level 61, m at next level, right associativity).

Definition await (c : call) (r : client_result) : M value :=
  ([c], match r with Found data => Ok data | Failed msg => Raise (ClientError msg) end).

(** Truth value of a Python object, as [if block_document_id:] reads it. *)
Definition truthy (v : value) : bool :=
  match v with
  | VNone => false
  | VBool b => b
  | VInt z => negb (Z.eqb z 0)
  | VFloat (S754_zero _) => false
  | VFloat _ => true
  | VStr s => negb (String.eqb s "")
  | VList l => match l with [] => false | _ => true end
  | VDict d => match d with [] => false | _ => true end
  | VNotSet => true
  end.

(** [template.get("$ref", {}).get("block_document_id")] *)
Definition get_block_document_id (template : dict) : result value :=
  match dict_get template "$ref" with
  | None => Ok VNone
  | Some (VDict ref) =>
      match dict_get ref "block_document_id" with
      | Some id => Ok id
      | None => Ok VNone
      end
  | Some _ => Raise AttributeError_get
  end.

(** The string case of [resolve_block_document_references]. *)
Definition resolve_str (client : Client) (template : string) : M value :=
  let placeholders := find_placeholders_str template in
  let has_block_document_placeholder :=
    existsb (fun p => PlaceholderType_eqb (type p) BLOCK_DOCUMENT) placeholders in
  if (List.length placeholders =? 0)%nat || negb has_block_document_placeholder
  then ret (VStr template)
  else
    match placeholders with
    | [p] =>
        if String.eqb (full_match p) template
           && PlaceholderType_eqb (type p) BLOCK_DOCUMENT
        then
          match split "." (replace BLOCK_DOCUMENT_PLACEHOLDER_PREFIX "" (name p)) with
          | [block_type_slug; block_document_name] =>
              await (ReadBlockDocumentByName block_document_name block_type_slug)
                (read_block_document_by_name client block_document_name block_type_slug)
          | parts => raise (ValueError_unpack (List.length parts))
          end
        else raise (ValueError_invalid_template template)
    | _ => raise (ValueError_invalid_template template)
    end.

(** [resolve_block_document_references(template, client=client)].  The
    decorator [inject_client] hands a call that names no client the client
    of the running context, [ambient]: that is the client the calls on the
    values of a dict get, which pass none on. *)
Fixpoint resolve_block_document_references (ambient client : Client) (template : value)
  {struct template} : M value :=
  match template with
  | VDict d =>
      match get_block_document_id d with
      | Raise e => raise e
      | Ok block_document_id =>
          if truthy block_document_id
          then await (ReadBlockDocument block_document_id)
                 (read_block_document client block_document_id)
          else
            updated_template <-
              fold_left
                (fun acc '(key, v) =>
                   updated_template <- acc ;;
                   updated_value <- resolve_block_document_references ambient ambient v ;;
                   ret (dict_set updated_template key updated_value))
                d (ret []) ;;
            ret (VDict updated_template)
      end
  | VList l =>
      items <-
        fold_left
          (fun acc item =>
             items <- acc ;;
             resolved <- resolve_block_document_references ambient client item ;;
             ret (items ++ [resolved])%list)
          l (ret []) ;;
      ret (VList items)
  | VStr s => resolve_str client s
  | VNone | VBool _ | VInt _ | VFloat _ | VNotSet => ret template
  end.

(** * Notions of the statements *)

(** A runtime to evaluate examples with: sets iterate in the order of
    their list, and the unmodelled renderings are empty. *)
#[local] Instance example_runtime : PyRuntime := {|
  set_iter := fun l => l;
  set_iter_perm := fun l => Permutation_refl l;
  str_other := fun _ => ""
|}.

Definition example_client : Client := {|
  read_block_document := fun id =>
    match id with
    | VStr "abc" => Found (VDict [("k", VInt 1)])
    | _ => Failed "not found"
    end;
  read_block_document_by_name := fun name slug =>
    if String.eqb name "my-secret" && String.eqb slug "secret"
    then Found (VStr "s3cr3t") else Failed "not found"
|}.

(** The values that stay in a rebuilt collection. *)
Definition kept (v : value) : bool := negb (is_NotSet v).

(** [NotSet] stands somewhere in [v]. *)
Fixpoint has_NotSet (v : value) : bool :=
  match v with
  | VNotSet => true
  | VList l => existsb has_NotSet l
  | VDict d => existsb (fun '(key, x) => has_NotSet x) d
  | VNone | VBool _ | VInt _ | VFloat _ | VStr _ => false
  end.

(** The string has a placeholder of kind BlockDocument. *)
Definition has_block_placeholder (template : string) : bool :=
  existsb (fun p => PlaceholderType_eqb (type p) BLOCK_DOCUMENT)
    (find_placeholders_str template).

(** The string is one placeholder of kind BlockDocument and nothing else. *)
Definition single_block_placeholder (template : string) (p : Placeholder) : Prop :=
  find_placeholders_str template = [p]
  /\ full_match p = template
  /\ type p = BLOCK_DOCUMENT.

(** [old] occurs in [s]. *)
Definition occurs (old s : string) : Prop := exists a b, s = a ++ old ++ b.

(** The same, decided from left to right. *)
Fixpoint occursb (old s : string) : bool :=
  match strip_prefix old s with
  | Some _ => true
  | None =>
      match s with
      | EmptyString => false
      | String _ s' => occursb old s'
      end
  end.

(** The reference object of a block document id. *)
Definition reference_object (id : value) : value :=
  VDict [("$ref", VDict [("block_document_id", id)])].

(** The items of a list resolved from first to last. *)
Fixpoint resolve_items (f : value -> M value) (l : list value) : M (list value) :=
  match l with
  | [] => ret []
  | item :: r =>
      resolved <- f item ;;
      r' <- resolve_items f r ;;
      ret (resolved :: r')
  end.

(** The values of a dict resolved from first to last, under their keys. *)
Fixpoint resolve_values (f : value -> M value) (d : dict) : M dict :=
  match d with
  | [] => ret []
  | (key, v) :: r =>
      updated_value <- f v ;;
      r' <- resolve_values f r ;;
      ret ((key, updated_value) :: r')
  end.

(** The id of a reference object, or [None]. *)
Definition block_document_id_of (ref : dict) : value :=
  match dict_get ref "block_document_id" with
  | Some id => id
  | None => VNone
  end.

(** No string stands twice in the list. *)
Fixpoint distinct (l : list string) : bool :=
  match l with
  | [] => true
  | k :: r => negb (existsb (String.eqb k) r) && distinct r
  end.

(** The value is a tree of the data model: no [NotSet] in it, and no key
    twice in a dict. *)
Fixpoint value_tree (v : value) : bool :=
  match v with
  | VNotSet => false
  | VList l => forallb value_tree l
  | VDict d => distinct (keys d) && forallb (fun '(key, x) => value_tree x) d
  | VNone | VBool _ | VInt _ | VFloat _ | VStr _ => true
  end.

(** The string is one Standard placeholder and nothing else. *)
Definition is_single_standard (template : string) : bool :=
  match find_placeholders_str template with
  | [p] => String.eqb (full_match p) template && PlaceholderType_eqb (type p) STANDARD
  | _ => false
  end.

(** No placeholder of the string names a key of the context, and the
    string is not one Standard placeholder on its own. *)
Definition settled_str (values : dict) (template : string) : bool :=
  forallb (fun p => match dict_get values (name p) with Some _ => false | None => true end)
    (find_placeholders_str template)
  && negb (is_single_standard template).

(** Every string of the value is settled. *)
Fixpoint settled (values : dict) (v : value) : bool :=
  match v with
  | VStr s => settled_str values s
  | VList l => forallb (settled values) l
  | VDict d => forallb (fun '(key, x) => settled values x) d
  | VNone | VBool _ | VInt _ | VFloat _ | VNotSet => true
  end.

(** Every character of [s] satisfies [q]. *)
Fixpoint all_chars (q : ascii -> bool) (s : string) : bool :=
  match s with
  | EmptyString => true
  | String c s' => q c && all_chars q s'
  end.

(** The texts the pattern matches: two opening braces, spaces, a name that
    is not empty, spaces, two closing braces. *)
Definition placeholder_text (ws1 nm ws2 : string) : string :=
  "{{" ++ ws1 ++ nm ++ ws2 ++ "}}".

Definition shaped (ws1 nm ws2 : string) : bool :=
  all_chars is_space ws1 && all_chars is_name_char nm
  && negb (String.eqb nm "") && all_chars is_space ws2.

(** The first character of [s], if any, fails [q]. *)
Definition stops (q : ascii -> bool) (s : string) : Prop :=
  match s with
  | EmptyString => True
  | String c _ => q c = false
  end.

(** A string cut at the matches of the pattern: the placeholders matched,
    from the left and without overlap, and the text between them. *)
Inductive token : Type :=
| Lit (text : string)
| Ph (full nm : string).

Equations? tokens (s : string) : list token by wf (String.length s) lt :=
  tokens EmptyString := [];
  tokens (String c s') with inspect (match_placeholder (String c s')) := {
    | exist _ (Some (full, nm, rest)) H => Ph full nm :: tokens rest;
    | exist _ None _ => Lit (String c EmptyString) :: tokens s' }.
Proof.
  apply (match_placeholder_length _ _ _ _ H).
Qed.

Definition token_text (t : token) : string :=
  match t with
  | Lit text => text
  | Ph full _ => full
  end.

Fixpoint flatten (toks : list token) : string :=
  match toks with
  | [] => EmptyString
  | t :: r => token_text t ++ flatten r
  end.

(** The placeholders among the tokens, as [findall] lists them. *)
Fixpoint matches (toks : list token) : list (string * string) :=
  match toks with
  | [] => []
  | Lit _ :: r => matches r
  | Ph full nm :: r => (full, nm) :: matches r
  end.

Definition no_open_brace (s : string) : bool :=
  all_chars (fun c => negb (Ascii.eqb c "{")) s.

(** A token is sound when its text cannot be taken for anything else: a
    literal has no opening brace, a placeholder has the text of one. *)
Definition sound (t : token) : Prop :=
  match t with
  | Lit text => no_open_brace text = true
  | Ph full nm => exists ws1 ws2, shaped ws1 nm ws2 = true
                                  /\ full = placeholder_text ws1 nm ws2
  end.

(** No opening brace stands in the string outside its placeholders. *)
Definition no_stray_brace (s : string) : bool :=
  forallb (fun t => match t with Lit text => no_open_brace text | Ph _ _ => true end)
    (tokens s).

(** What [replace old new] does to a token. *)
Definition subst_token (old new : string) (t : token) : token :=
  match t with
  | Lit text => Lit text
  | Ph full nm => if String.eqb full old then Lit new else Ph full nm
  end.

Section Interpolation.

Context {rt : PyRuntime}.
Variable values : dict.

(** What a placeholder of name [nm] is replaced by: the rendering of the
    value of [nm] in the context, for a Standard placeholder whose name
    the context maps to a value other than [None]. *)
Definition rendering (nm : string) : option string :=
  match dict_get values nm, determine_placeholder_type nm with
  | Some v, STANDARD => if is_None v then None else Some (py_str v)
  | _, _ => None
  end.

Definition render (t : token) : token :=
  match t with
  | Lit text => Lit text
  | Ph full nm =>
      match rendering nm with
      | Some r => Lit r
      | None => Ph full nm
      end
  end.

(** The interpolation the specification describes: every placeholder that
    has a rendering gives way to it, all else stays. *)
Definition interpolate (template : string) : string :=
  flatten (map render (tokens template)).

(** What the loop of [apply_values] replaces the placeholder by, if it
    does. *)
Definition rendering_of (p : Placeholder) : option string :=
  match dict_get values (name p), type p with
  | Some v, STANDARD => if is_None v then None else Some (py_str v)
  | _, _ => None
  end.

(** One turn of the loop, on a token. *)
Definition step_token (t : token) (p : Placeholder) : token :=
  match rendering_of p with
  | Some r => subst_token (full_match p) r t
  | None => t
  end.

End Interpolation.

(** The strings that stand in a value as items of lists and values of
    dicts, at any depth; keys are not among them. *)
Fixpoint tree_strings (v : value) : list string :=
  match v with
  | VStr s => [s]
  | VList l => flat_map tree_strings l
  | VDict d => flat_map (fun '(key, x) => tree_strings x) d
  | VNone | VBool _ | VInt _ | VFloat _ | VNotSet => []
  end.

(** [None] or [NotSet] stands somewhere in the value. *)
Fixpoint has_None_or_NotSet (v : value) : bool :=
  match v with
  | VNone | VNotSet => true
  | VList l => existsb has_None_or_NotSet l
  | VDict d => existsb (fun '(key, x) => has_None_or_NotSet x) d
  | VBool _ | VInt _ | VFloat _ | VStr _ => false
  end.

(** Nothing in the value refers to a block document: no string has a
    placeholder of kind BlockDocument, no dict has the key ["$ref"]; and
    no dict has a key twice. *)
Fixpoint reference_free (v : value) : bool :=
  match v with
  | VStr s => negb (has_block_placeholder s)
  | VList l => forallb reference_free l
  | VDict d =>
      negb (existsb (String.eqb "$ref") (keys d))
      && distinct (keys d)
      && forallb (fun '(key, x) => reference_free x) d
  | VNone | VBool _ | VInt _ | VFloat _ | VNotSet => true
  end.

(** The call a string stands for, if it stands for one. *)
Definition string_lookups (s : string) : list call :=
  match find_placeholders_str s with
  | [p] =>
      if String.eqb (full_match p) s && PlaceholderType_eqb (type p) BLOCK_DOCUMENT
      then match split "." (replace BLOCK_DOCUMENT_PLACEHOLDER_PREFIX "" (name p)) with
           | [block_type_slug; block_document_name] =>
               [ReadBlockDocumentByName block_document_name block_type_slug]
           | _ => []
           end
      else []
  | _ => []
  end.

(** The calls a value stands for, read off the value alone: one for each
    reference object and each string that is a block document placeholder,
    from first to last; nothing below a reference object counts. *)
Fixpoint lookups (v : value) : list call :=
  match v with
  | VStr s => string_lookups s
  | VList l => flat_map lookups l
  | VDict d =>
      match get_block_document_id d with
      | Ok block_document_id =>
          if truthy block_document_id then [ReadBlockDocument block_document_id]
          else flat_map (fun '(key, x) => lookups x) d
      | Raise _ => []
      end
  | VNone | VBool _ | VInt _ | VFloat _ | VNotSet => []
  end.

(** The computation returned a value. *)
Definition succeeded {A : Type} (m : M A) : bool :=
  match snd m with Ok _ => true | Raise _ => false end.

(** * The program on examples *)

Example str_int_ex : map str_int [0; 5; -12]%Z = ["0"; "5"; "-12"].
Proof. reflexivity. Qed.

Example split_ex :
  map (split ".") ["secret.my-secret"; "a..b"; ""; "a"]
  = [["secret"; "my-secret"]; ["a"; ""; "b"]; [""]; ["a"]].
Proof. reflexivity. Qed.

Example replace_ex :
  replace "ab" "X" "abcabab" = "XcXX" /\ replace "aa" "b" "aaa" = "ba"
  /\ replace "" "-" "ab" = "-a-b-".
Proof. repeat split. Qed.

Example findall_ex :
  findall "a {{ x }}b{{y.z}} {{ }} {{{{w-1 }}}}" =
  [("{{ x }}", "x"); ("{{y.z}}", "y.z"); ("{{w-1 }}", "w-1")].
Proof. reflexivity. Qed.

Example apply_ex1 :
  apply_values (VStr "pre-{{x}}-post") [("x", VInt 5)] = VStr "pre-5-post".
Proof. reflexivity. Qed.

Example apply_ex2 :
  apply_values (VDict [("a", VStr "{{missing}}"); ("b", VList [VStr "{{ x }}"; VStr "{{y}}"; VInt 1])])
    [("x", VDict [("k", VBool true)])]
  = VDict [("b", VList [VDict [("k", VBool true)]; VInt 1])].
Proof. reflexivity. Qed.

Example resolve_ex1 :
  resolve_block_document_references example_client example_client
    (VList [VDict [("$ref", VDict [("block_document_id", VStr "abc")])];
            VStr "{{ prefect.blocks.secret.my-secret }}"; VStr "{{ x }}"])
  = ([ReadBlockDocument (VStr "abc"); ReadBlockDocumentByName "my-secret" "secret"],
     Ok (VList [VDict [("k", VInt 1)]; VStr "s3cr3t"; VStr "{{ x }}"])).
Proof. reflexivity. Qed.

Example resolve_ex2 :
  resolve_block_document_references example_client example_client
    (VStr "prefix-{{ prefect.blocks.secret.my-secret }}")
  = ([], Raise (ValueError_invalid_template "prefix-{{ prefect.blocks.secret.my-secret }}")).
Proof. reflexivity. Qed.

Example interpolate_ex :
  interpolate [("x", VInt 5); ("n", VNone)]
    "pre-{{x}}-{{ y }}-{{n}}-{{ prefect.blocks.a.b }}-{{x }}"
  = "pre-5-{{ y }}-{{n}}-{{ prefect.blocks.a.b }}-5".
Proof. reflexivity. Qed.

Example apply_values_interpolate_ex :
  apply_values (VStr "pre-{{x}}-{{ y }}-{{n}}-{{ prefect.blocks.a.b }}-{{x }}")
    [("x", VInt 5); ("n", VNone)]
  = VStr "pre-5-{{ y }}-{{n}}-{{ prefect.blocks.a.b }}-5".
Proof. reflexivity. Qed.

(** * Properties *)

(** ** Unfolding the scans *)

Lemma replace_ne_cons (o : ascii) (olds new : string) (c : ascii) (s' : string) :
  replace_ne o olds new (String c s')
  = match strip_prefix (String o olds) (String c s') with
    | Some rest => new ++ replace_ne o olds new rest
    | None => String c (replace_ne o olds new s')
    end.
Proof.
  rewrite replace_ne_equation_2.
  assert (G : forall r, replace_ne_unfold_clause_2 o olds new c s' r
          = match proj1_sig r with
            | Some rest => new ++ replace_ne o olds new rest
            | None => String c (replace_ne o olds new s')
            end) by (intros [[rest|] e]; reflexivity).
  apply G.
Qed.

Lemma findall_cons (c : ascii) (s' : string) :
  findall (String c s')
  = match match_placeholder (String c s') with
    | Some (full, nm, rest) => (full, nm) :: findall rest
    | None => findall s'
    end.
Proof.
  rewrite findall_equation_2.
  assert (G : forall r, findall_unfold_clause_2 c s' r
          = match proj1_sig r with
            | Some (full, nm, rest) => (full, nm) :: findall rest
            | None => findall s'
            end) by (intros [[[[full nm] rest]|] e]; reflexivity).
  apply G.
Qed.

Lemma tokens_cons (c : ascii) (s' : string) :
  tokens (String c s')
  = match match_placeholder (String c s') with
    | Some (full, nm, rest) => Ph full nm :: tokens rest
    | None => Lit (String c EmptyString) :: tokens s'
    end.
Proof.
  rewrite tokens_equation_2.
  assert (G : forall r, tokens_unfold_clause_2 c s' r
          = match proj1_sig r with
            | Some (full, nm, rest) => Ph full nm :: tokens rest
            | None => Lit (String c EmptyString) :: tokens s'
            end) by (intros [[[[full nm] rest]|] e]; reflexivity).
  apply G.
Qed.

(** ** Collections rebuilt by [apply_values] *)

Lemma fold_left_append_kept (f : value -> value) (l acc : list value) :
  fold_left
    (fun updated_list v =>
       let updated_value := f v in
       if is_NotSet updated_value then updated_list
       else (updated_list ++ [updated_value])%list)
    l acc
  = (acc ++ filter kept (map f l))%list.
Proof.
  revert acc; induction l as [|v l IH]; intros acc; simpl.
  - now rewrite app_nil_r.
  - rewrite IH. change (kept (f v)) with (negb (is_NotSet (f v))).
    destruct (is_NotSet (f v)); cbn [negb].
    + reflexivity.
    + now rewrite <- app_assoc.
Qed.

Lemma dict_set_fresh {A : Type} (d : list (string * A)) (k : string) (v : A) :
  ~ In k (keys d) -> dict_set d k v = (d ++ [(k, v)])%list.
Proof.
  induction d as [|[k' v'] d IH]; simpl; intros Hk.
  - reflexivity.
  - destruct (String.eqb_spec k' k) as [->|Hne].
    + exfalso; apply Hk; now left.
    + rewrite IH; [reflexivity | intros Hin; apply Hk; now right].
Qed.

Lemma keys_app {A : Type} (d e : list (string * A)) :
  keys (d ++ e) = (keys d ++ keys e)%list.
Proof. apply map_app. Qed.

Lemma fold_left_dict_set_kept (f : value -> value) (d acc : dict) :
  NoDup (keys d) ->
  (forall k, In k (keys acc) -> ~ In k (keys d)) ->
  fold_left
    (fun updated_template '(key, v) =>
       let updated_value := f v in
       if is_NotSet updated_value then updated_template
       else dict_set updated_template key updated_value)
    d acc
  = (acc ++ filter (fun kv => kept (snd kv)) (map (fun kv => (fst kv, f (snd kv))) d))%list.
Proof.
  revert acc; induction d as [|[k v] d IH]; intros acc Hnd Hdisj; simpl.
  - now rewrite app_nil_r.
  - inversion Hnd as [|? ? Hk Hnd']; subst.
    change (kept (f v)) with (negb (is_NotSet (f v))).
    destruct (is_NotSet (f v)) eqn:E; cbn [negb].
    + apply IH; [assumption|]. intros k' Hin Hin'. apply (Hdisj k' Hin). now right.
    + rewrite dict_set_fresh by (intros Hin; apply (Hdisj k Hin); now left).
      rewrite IH; [now rewrite <- app_assoc | assumption |].
      intros k' Hin Hin'. rewrite keys_app in Hin. apply in_app_or in Hin.
      destruct Hin as [Hin|[<-|[]]].
      * apply (Hdisj k' Hin). now right.
      * contradiction.
Qed.

Section Collections.

Context {rt : PyRuntime}.
Variable values : dict.

Lemma apply_values_list (l : list value) :
  apply_values (VList l) values
  = VList (filter kept (map (fun v => apply_values v values) l)).
Proof.
  simpl. now rewrite (fold_left_append_kept (fun v => apply_values v values)).
Qed.

Lemma apply_values_dict (d : dict) :
  NoDup (keys d) ->
  apply_values (VDict d) values
  = VDict (filter (fun kv => kept (snd kv))
             (map (fun kv => (fst kv, apply_values (snd kv) values)) d)).
Proof.
  intros Hnd. simpl.
  now rewrite (fold_left_dict_set_kept (fun v => apply_values v values))
    by (auto; intros k []).
Qed.

(** C3. [apply_values] resolves every element of a sequence and every
    value of a mapping, and drops exactly the slots that resolve to
    [NotSet]: the result is the list of the resolved elements that are not
    [NotSet], in their order, and the mapping of the keys whose resolved
    value is not [NotSet], in their order and with those values. *)
Theorem apply_values_drops_NotSet :
  (forall l : list value,
      apply_values (VList l) values
      = VList (filter kept (map (fun v => apply_values v values) l)))
  /\
  (forall d : dict,
      NoDup (keys d) ->
      apply_values (VDict d) values
      = VDict (filter (fun kv => kept (snd kv))
                 (map (fun kv => (fst kv, apply_values (snd kv) values)) d))).
Proof.
  split.
  - intros l. simpl.
    now rewrite (fold_left_append_kept (fun v => apply_values v values)).
  - intros d Hnd. simpl.
    now rewrite (fold_left_dict_set_kept (fun v => apply_values v values))
      by (auto; intros k []).
Qed.

End Collections.

Lemma apply_values_drops_NotSet_witness :
  NoDup (keys [("a", VStr "{{missing}}"); ("b", VInt 1); ("c", VNotSet); ("d", VStr "{{x}}")])
  /\ apply_values
       (VDict [("a", VStr "{{missing}}"); ("b", VInt 1); ("c", VNotSet); ("d", VStr "{{x}}")])
       [("x", VBool true)]
     = VDict [("b", VInt 1); ("d", VBool true)].
Proof.
  assert (H : NoDup (keys [("a", VStr "{{missing}}"); ("b", VInt 1);
                           ("c", VNotSet); ("d", VStr "{{x}}")])).
  { repeat constructor; simpl; intuition discriminate. }
  split; [exact H|].
  rewrite (proj2 (apply_values_drops_NotSet (rt := example_runtime) [("x", VBool true)]) _ H).
  reflexivity.
Defined.

(** ** A string that is one Standard placeholder *)

Section SinglePlaceholder.

Context {rt : PyRuntime}.

(** C1. When the placeholders of a string are one placeholder of kind
    Standard whose full match is the whole string, [apply_values] returns
    the value the context holds for its name, as it is, and [NotSet] when
    the context has no such key. *)
Theorem apply_values_single_standard (values : dict) (template : string) (p : Placeholder) :
  find_placeholders_str template = [p] ->
  full_match p = template ->
  type p = STANDARD ->
  apply_values (VStr template) values
  = match dict_get values (name p) with
    | Some v => v
    | None => VNotSet
    end.
Proof.
  intros Hfind Hfull Htype. simpl. unfold apply_values_str.
  rewrite Hfind, Hfull, Htype, String.eqb_refl. reflexivity.
Qed.

End SinglePlaceholder.

Lemma apply_values_single_standard_witness :
  apply_values (VStr "{{ n }}") [("n", VList [VInt 1; VBool true])]
  = VList [VInt 1; VBool true]
  /\ apply_values (VStr "{{missing}}") [] = VNotSet.
Proof.
  split.
  - apply (apply_values_single_standard (rt := example_runtime)
             [("n", VList [VInt 1; VBool true])] "{{ n }}"
             (mkPlaceholder "{{ n }}" "n" STANDARD)); reflexivity.
  - apply (apply_values_single_standard (rt := example_runtime)
             [] "{{missing}}" (mkPlaceholder "{{missing}}" "missing" STANDARD));
      reflexivity.
Defined.

(** ** Scalars given to [find_placeholders] *)

(** Integers, floats and booleans have no placeholders. *)
Lemma find_placeholders_number (z : Z) (f : spec_float) (b : bool) :
  find_placeholders (VInt z) = Ok []
  /\ find_placeholders (VFloat f) = Ok []
  /\ find_placeholders (VBool b) = Ok [].
Proof. repeat split. Qed.

(** C6 at [None]: the call raises, here and wherever [None] stands in a
    list or a dict. *)
Lemma find_placeholders_None :
  find_placeholders VNone = Raise ValueError_unexpected_type
  /\ find_placeholders (VList [VInt 1; VNone]) = Raise ValueError_unexpected_type
  /\ find_placeholders (VDict [("a", VNone)]) = Raise ValueError_unexpected_type.
Proof. repeat split. Qed.

(** ** The sentinel in the results of [apply_values] *)

Lemma dict_get_In {A : Type} (d : list (string * A)) (k : string) (v : A) :
  dict_get d k = Some v -> In (k, v) d.
Proof.
  induction d as [|[k' v'] d IH]; simpl; [discriminate|].
  destruct (String.eqb_spec k' k) as [->|_].
  - intros H; inversion H; now left.
  - intros H; right; auto.
Qed.

Lemma dict_set_no_NotSet (d : dict) (k : string) (v : value) :
  existsb (fun '(key, x) => has_NotSet x) d = false ->
  has_NotSet v = false ->
  existsb (fun '(key, x) => has_NotSet x) (dict_set d k v) = false.
Proof.
  induction d as [|[k' v'] d IH]; simpl; intros Hd Hv.
  - now rewrite Hv.
  - apply orb_false_iff in Hd. destruct Hd as [Hv' Hd].
    destruct (String.eqb k' k); simpl.
    + now rewrite Hv, Hd.
    + now rewrite Hv', IH.
Qed.

Section Sentinel.

Context {rt : PyRuntime}.
Variable values : dict.
Hypothesis values_legal : forall k v, In (k, v) values -> has_NotSet v = false.

Lemma apply_values_str_NotSet (s : string) :
  apply_values_str s values = VNotSet \/ has_NotSet (apply_values_str s values) = false.
Proof.
  unfold apply_values_str.
  destruct (find_placeholders_str s) as [|p others]; [now right|].
  match goal with |- context [if ?c then _ else _] => destruct c end; [|now right].
  destruct (dict_get values (name p)) as [v|] eqn:E; [right|now left].
  apply dict_get_In in E. eauto.
Qed.

Lemma apply_values_NotSet_or_clean (template : value) :
  apply_values template values = VNotSet
  \/ has_NotSet (apply_values template values) = false.
Proof.
  induction template as [| | | | s | l IH | d IH |] using value_ind';
    try (now right); try (now left).
  - apply apply_values_str_NotSet.
  - right. simpl. rewrite (fold_left_append_kept (fun v => apply_values v values)).
    simpl. induction IH as [|v l Hv _ IHl]; simpl; [reflexivity|].
    unfold kept at 1. destruct Hv as [Hv|Hv].
    + rewrite Hv; simpl. exact IHl.
    + destruct (is_NotSet (apply_values v values)); simpl; [exact IHl|].
      now rewrite Hv, IHl.
  - right. simpl.
    enough (G : forall acc : dict,
               existsb (fun '(key, x) => has_NotSet x) acc = false ->
               existsb (fun '(key, x) => has_NotSet x)
                 (fold_left
                    (fun updated_template '(key, v) =>
                       let updated_value := apply_values v values in
                       if is_NotSet updated_value then updated_template
                       else dict_set updated_template key updated_value)
                    d acc) = false) by (apply G; reflexivity).
    induction IH as [|[k v] d Hv _ IHd]; intros acc Hacc; simpl; [exact Hacc|].
    apply IHd. simpl in Hv. destruct Hv as [Hv|Hv].
    + now rewrite Hv.
    + destruct (is_NotSet (apply_values v values)); [exact Hacc|].
      now apply dict_set_no_NotSet.
Qed.

(** C9. With a context whose values hold no [NotSet]: a sequence resolves
    to a sequence and a mapping to a mapping, with no [NotSet] at any
    depth; a result other than [NotSet] itself holds none; and [NotSet] is
    the result only of [NotSet] and of a string that is one Standard
    placeholder whose name the context lacks. *)
Theorem apply_values_NotSet_not_inside (template : value) :
  (forall l, template = VList l ->
     exists l', apply_values template values = VList l'
                /\ has_NotSet (VList l') = false)
  /\ (forall d, template = VDict d ->
        exists d', apply_values template values = VDict d'
                   /\ has_NotSet (VDict d') = false)
  /\ (apply_values template values <> VNotSet ->
      has_NotSet (apply_values template values) = false)
  /\ (apply_values template values = VNotSet ->
      template = VNotSet
      \/ exists p, template = VStr (full_match p)
                   /\ find_placeholders_str (full_match p) = [p]
                   /\ type p = STANDARD
                   /\ dict_get values (name p) = None).
Proof.
  pose proof (apply_values_NotSet_or_clean template) as Hclean.
  repeat split.
  - intros l ->. destruct Hclean as [H|H]; [discriminate|]. eexists; split; [reflexivity|exact H].
  - intros d ->. destruct Hclean as [H|H]; [discriminate|]. eexists; split; [reflexivity|exact H].
  - intros Hne. destruct Hclean; [contradiction|assumption].
  - clear Hclean. destruct template as [| | | | s | l | d |]; try discriminate; [|now left].
    simpl. unfold apply_values_str. intros H. right.
    destruct (find_placeholders_str s) as [|p others] eqn:Hfind; [discriminate|].
    destruct others as [|q others]; simpl in H; [|discriminate].
    destruct (String.eqb_spec (full_match p) s) as [Hfull|_]; simpl in H; [|discriminate].
    destruct (type p) eqn:Htype; simpl in H; [|discriminate].
    destruct (dict_get values (name p)) as [v|] eqn:E.
    + subst v. apply dict_get_In, values_legal in E. discriminate.
    + exists p. subst s. auto.
Qed.

End Sentinel.

Lemma apply_values_NotSet_not_inside_witness :
  (forall k v, In (k, v) [("x", VList [VInt 1])] -> has_NotSet v = false)
  /\ has_NotSet
       (apply_values (VDict [("a", VList [VStr "{{y}}"; VNotSet; VStr "{{x}}"])])
          [("x", VList [VInt 1])]) = false.
Proof.
  assert (H : forall k v, In (k, v) [("x", VList [VInt 1])] -> has_NotSet v = false).
  { intros k v [E|[]]. inversion E; reflexivity. }
  split; [exact H|].
  apply (apply_values_NotSet_not_inside (rt := example_runtime) _ H).
  discriminate.
Defined.

(** ** Strings given to [resolve_block_document_references] *)

Lemma PlaceholderType_eqb_eq (a b : PlaceholderType) :
  PlaceholderType_eqb a b = true <-> a = b.
Proof. destruct a, b; simpl; split; congruence. Qed.

Lemma resolve_str_single (client : Client) (template : string) (p : Placeholder) :
  single_block_placeholder template p ->
  resolve_str client template
  = match split "." (replace BLOCK_DOCUMENT_PLACEHOLDER_PREFIX "" (name p)) with
    | [block_type_slug; block_document_name] =>
        await (ReadBlockDocumentByName block_document_name block_type_slug)
          (read_block_document_by_name client block_document_name block_type_slug)
    | parts => raise (ValueError_unpack (List.length parts))
    end.
Proof.
  intros (Hfind & Hfull & Htype). unfold resolve_str.
  rewrite Hfind. simpl. rewrite Htype, Hfull, String.eqb_refl. reflexivity.
Qed.

Lemma resolve_str_no_block (client : Client) (template : string) :
  has_block_placeholder template = false ->
  resolve_str client template = ret (VStr template).
Proof.
  unfold has_block_placeholder, resolve_str. intros ->.
  now rewrite orb_true_r.
Qed.

Lemma resolve_str_mixed (client : Client) (template : string) :
  has_block_placeholder template = true ->
  (forall p, ~ single_block_placeholder template p) ->
  resolve_str client template = raise (ValueError_invalid_template template).
Proof.
  unfold has_block_placeholder, resolve_str, single_block_placeholder.
  intros Hblock Hnot. rewrite Hblock.
  destruct (find_placeholders_str template) as [|p [|q others]] eqn:Hfind;
    [discriminate Hblock | | reflexivity].
  simpl.
  destruct (String.eqb_spec (full_match p) template) as [Hfull|_]; [|reflexivity].
  destruct (PlaceholderType_eqb (type p) BLOCK_DOCUMENT) eqn:Htype; [|reflexivity].
  exfalso. apply (Hnot p). apply PlaceholderType_eqb_eq in Htype. auto.
Qed.

(** C5. A string raises the invalid-template error exactly when it has a
    placeholder of kind BlockDocument and is not one such placeholder and
    nothing else; a string with no placeholder of that kind is returned as
    it is, with no call made. *)
Theorem resolve_invalid_template_iff (ambient client : Client) (template : string) :
  ((exists t, snd (resolve_block_document_references ambient client (VStr template))
              = Raise (ValueError_invalid_template t))
   <-> has_block_placeholder template = true
       /\ forall p, ~ single_block_placeholder template p)
  /\ (has_block_placeholder template = true ->
      (forall p, ~ single_block_placeholder template p) ->
      resolve_block_document_references ambient client (VStr template)
      = ([], Raise (ValueError_invalid_template template)))
  /\ (has_block_placeholder template = false ->
      resolve_block_document_references ambient client (VStr template)
      = ([], Ok (VStr template))).
Proof.
  split; [split|split].
  - intros [t Ht]. simpl in Ht.
    destruct (has_block_placeholder template) eqn:Hblock.
    + split; [reflexivity|]. intros p Hp.
      rewrite (resolve_str_single client template p Hp) in Ht.
      destruct (split _ _) as [|a [|b [|c parts]]]; try discriminate Ht.
      simpl in Ht. destruct (read_block_document_by_name client b a); discriminate Ht.
    + rewrite (resolve_str_no_block client template Hblock) in Ht. discriminate Ht.
  - intros [Hblock Hnot]. exists template. simpl.
    now rewrite (resolve_str_mixed client template Hblock Hnot).
  - intros Hblock Hnot. simpl. now apply resolve_str_mixed.
  - intros Hblock. simpl. now apply resolve_str_no_block.
Qed.

Lemma resolve_invalid_template_iff_witness :
  has_block_placeholder "prefix-{{ prefect.blocks.secret.my-secret }}" = true
  /\ (forall p, ~ single_block_placeholder "prefix-{{ prefect.blocks.secret.my-secret }}" p)
  /\ resolve_block_document_references example_client example_client
       (VStr "prefix-{{ prefect.blocks.secret.my-secret }}")
     = ([], Raise (ValueError_invalid_template "prefix-{{ prefect.blocks.secret.my-secret }}")).
Proof.
  assert (H : forall p, ~ single_block_placeholder
                            "prefix-{{ prefect.blocks.secret.my-secret }}" p).
  { intros p (Hfind & Hfull & _). vm_compute in Hfind. inversion Hfind; subst p.
    discriminate Hfull. }
  split; [reflexivity|]. split; [exact H|].
  apply (proj1 (proj2 (resolve_invalid_template_iff example_client example_client
                         "prefix-{{ prefect.blocks.secret.my-secret }}")));
    [reflexivity | exact H].
Defined.

(** The names of the placeholders found decide their kinds. *)
Lemma find_placeholders_str_type (template : string) (p : Placeholder) :
  In p (find_placeholders_str template) ->
  type p = determine_placeholder_type (name p).
Proof.
  unfold find_placeholders_str. intros Hin. apply nodup_In in Hin.
  apply in_map_iff in Hin. destruct Hin as [[full nm] [<- _]]. reflexivity.
Qed.

Lemma determine_placeholder_type_block (nm : string) :
  determine_placeholder_type nm = BLOCK_DOCUMENT ->
  exists rest, nm = BLOCK_DOCUMENT_PLACEHOLDER_PREFIX ++ rest.
Proof.
  unfold determine_placeholder_type, startswith.
  destruct (strip_prefix BLOCK_DOCUMENT_PLACEHOLDER_PREFIX nm) as [rest|] eqn:E;
    [|discriminate].
  intros _. exists rest. now apply strip_prefix_app.
Qed.

Lemma replace_ne_absent (o : ascii) (olds new s : string) :
  ~ occurs (String o olds) s -> replace_ne o olds new s = s.
Proof.
  induction s as [|c s IH]; intros Hno.
  - apply replace_ne_equation_1.
  - rewrite replace_ne_cons.
    destruct (strip_prefix (String o olds) (String c s)) as [rest|] eqn:E.
    + exfalso. apply Hno. exists "", rest. exact (strip_prefix_app _ _ _ E).
    + f_equal. apply IH. intros (a & b & ->). apply Hno.
      now exists (String c a), b.
Qed.

Lemma replace_ne_head (o : ascii) (olds new rest : string) :
  replace_ne o olds new (String o olds ++ rest) = new ++ replace_ne o olds new rest.
Proof.
  cbn [append]. rewrite replace_ne_cons.
  change (String o (olds ++ rest)) with (String o olds ++ rest).
  now rewrite strip_prefix_append.
Qed.

Lemma occurs_occursb (old s : string) : occurs old s -> occursb old s = true.
Proof.
  intros (a & b & ->). induction a as [|c a IH].
  - cbn [append]. destruct old as [|o old].
    + now destruct b.
    + change (String o old ++ b) with (String o (old ++ b)).
      cbn [occursb].
      change (String o (old ++ b)) with (String o old ++ b).
      now rewrite strip_prefix_append.
  - cbn [append occursb].
    destruct (strip_prefix old (String c (a ++ old ++ b))); [reflexivity|exact IH].
Qed.

(** C4, as the code has it.  The name of a string that is one
    BlockDocument placeholder begins with the prefix.  When the prefix
    stands nowhere in the rest of the name, the reference is that rest,
    split at the dots: the call raises on unpacking exactly when that gives
    other than two parts, and otherwise, also for an empty part, makes the
    one call [read_block_document_by_name] with the second part as name and
    the first as slug, and returns its data or raises what it raises. *)
Theorem resolve_single_block_placeholder
  (ambient client : Client) (template : string) (p : Placeholder) :
  single_block_placeholder template p ->
  (exists rest, name p = BLOCK_DOCUMENT_PLACEHOLDER_PREFIX ++ rest)
  /\ forall rest,
      name p = BLOCK_DOCUMENT_PLACEHOLDER_PREFIX ++ rest ->
      ~ occurs BLOCK_DOCUMENT_PLACEHOLDER_PREFIX rest ->
      (List.length (split "." rest) <> 2 ->
       resolve_block_document_references ambient client (VStr template)
       = ([], Raise (ValueError_unpack (List.length (split "." rest)))))
      /\ (forall block_type_slug block_document_name,
            split "." rest = [block_type_slug; block_document_name] ->
            resolve_block_document_references ambient client (VStr template)
            = ([ReadBlockDocumentByName block_document_name block_type_slug],
               match read_block_document_by_name client block_document_name block_type_slug with
               | Found data => Ok data
               | Failed msg => Raise (ClientError msg)
               end)).
Proof.
  intros Hp. pose proof Hp as (Hfind & Hfull & Htype). split.
  - assert (Hin : In p (find_placeholders_str template)) by (rewrite Hfind; now left).
    apply find_placeholders_str_type in Hin. rewrite Htype in Hin. symmetry in Hin.
    now apply determine_placeholder_type_block.
  - intros rest Hname Hno.
    assert (Href : replace BLOCK_DOCUMENT_PLACEHOLDER_PREFIX "" (name p) = rest).
    { rewrite Hname. unfold replace, BLOCK_DOCUMENT_PLACEHOLDER_PREFIX.
      rewrite replace_ne_head. cbn [append]. now apply replace_ne_absent. }
    split.
    + intros Hlen. simpl. rewrite (resolve_str_single client template p Hp), Href.
      destruct (split "." rest) as [|a [|b [|c parts]]]; try reflexivity.
      now contradiction Hlen.
    + intros slug doc Hsplit. simpl.
      rewrite (resolve_str_single client template p Hp), Href, Hsplit. reflexivity.
Qed.

Lemma resolve_single_block_placeholder_witness :
  single_block_placeholder "{{ prefect.blocks.secret.my-secret }}"
    (mkPlaceholder "{{ prefect.blocks.secret.my-secret }}"
       "prefect.blocks.secret.my-secret" BLOCK_DOCUMENT)
  /\ ~ occurs BLOCK_DOCUMENT_PLACEHOLDER_PREFIX "secret.my-secret"
  /\ split "." "secret.my-secret" = ["secret"; "my-secret"]
  /\ resolve_block_document_references example_client example_client
       (VStr "{{ prefect.blocks.secret.my-secret }}")
     = ([ReadBlockDocumentByName "my-secret" "secret"], Ok (VStr "s3cr3t")).
Proof.
  assert (H : single_block_placeholder "{{ prefect.blocks.secret.my-secret }}"
                (mkPlaceholder "{{ prefect.blocks.secret.my-secret }}"
                   "prefect.blocks.secret.my-secret" BLOCK_DOCUMENT)).
  { repeat split. }
  assert (Hno : ~ occurs BLOCK_DOCUMENT_PLACEHOLDER_PREFIX "secret.my-secret").
  { intros Hocc. apply occurs_occursb in Hocc. discriminate Hocc. }
  split; [exact H|]. split; [exact Hno|]. split; [reflexivity|].
  exact (proj2 (proj2 (resolve_single_block_placeholder example_client example_client
                         _ _ H) "secret.my-secret" eq_refl Hno)
           "secret" "my-secret" eq_refl).
Defined.

(** A name of other than two parts: the unpacking raises, and no call is
    made. *)
Example resolve_single_block_placeholder_parts :
  resolve_block_document_references example_client example_client
    (VStr "{{ prefect.blocks.a.b.c }}")
  = ([], Raise (ValueError_unpack 3))
  /\ resolve_block_document_references example_client example_client
       (VStr "{{ prefect.blocks.secret }}")
     = ([], Raise (ValueError_unpack 1)).
Proof. split; reflexivity. Qed.

(** The claim C4 fails where a part is empty: the call for the name
    [prefect.blocks.secret.] does not raise, it reads the block document of
    slug [secret] and of the empty name. *)
Lemma resolve_empty_block_document_name :
  let client := {| read_block_document := fun _ => Failed "not found";
                   read_block_document_by_name := fun _ _ => Found (VStr "s3cr3t") |} in
  single_block_placeholder "{{ prefect.blocks.secret. }}"
    (mkPlaceholder "{{ prefect.blocks.secret. }}" "prefect.blocks.secret." BLOCK_DOCUMENT)
  /\ split "." "secret." = ["secret"; ""]
  /\ resolve_block_document_references client client (VStr "{{ prefect.blocks.secret. }}")
     = ([ReadBlockDocumentByName "" "secret"], Ok (VStr "s3cr3t")).
Proof. repeat split. Qed.

(** ** Mappings given to [resolve_block_document_references] *)

Lemma resolve_values_keys (f : value -> M value) (d d' : dict) (log : list call) :
  resolve_values f d = (log, Ok d') -> keys d' = keys d.
Proof.
  revert d' log; induction d as [|[k v] d IH]; simpl; intros d' log H.
  - inversion H; reflexivity.
  - unfold bind in H. destruct (f v) as [l1 [v'|e]]; [|discriminate].
    destruct (resolve_values f d) as [l2 [r'|e]] eqn:E; [|discriminate].
    inversion H; subst. simpl. f_equal. eapply IH; reflexivity.
Qed.

Lemma fold_left_raise {A B : Type} (step : M A -> B -> M A)
  (Hstep : forall log e b, step (log, Raise e) b = (log, Raise e))
  (l : list B) (log : list call) (e : exn) :
  fold_left step l (log, Raise e) = (log, Raise e).
Proof. induction l as [|b l IH]; simpl; [reflexivity|]. now rewrite Hstep. Qed.

Lemma fold_left_resolve_values (f : value -> M value) (d acc : dict) (log : list call) :
  NoDup (keys d) ->
  (forall k, In k (keys acc) -> ~ In k (keys d)) ->
  fold_left
    (fun m '(key, v) =>
       updated_template <- m ;;
       updated_value <- f v ;;
       ret (dict_set updated_template key updated_value))
    d (log, Ok acc)
  = (d' <- (log, Ok acc) ;; r <- resolve_values f d ;; ret (d' ++ r)%list).
Proof.
  revert acc log; induction d as [|[k v] d IH]; intros acc log Hnd Hdisj.
  - simpl. now rewrite !app_nil_r.
  - inversion Hnd as [|? ? Hk Hnd']; subst.
    cbn [fold_left resolve_values].
    assert (Hs : (updated_template <- (log, Ok acc) ;;
                  updated_value <- f v ;;
                  ret (dict_set updated_template k updated_value))
                 = let (l1, r) := f v in
                   ((log ++ l1)%list,
                    match r with
                    | Ok v' => Ok (dict_set acc k v')
                    | Raise e => Raise e
                    end)).
    { unfold bind, ret.
      destruct (f v) as [l1 [v'|e]]; rewrite ?app_nil_r; reflexivity. }
    rewrite Hs. clear Hs. destruct (f v) as [l1 [v'|e]].
    + rewrite dict_set_fresh by (intros Hin; apply (Hdisj k Hin); now left).
      rewrite IH; [|assumption|].
      * unfold bind, ret.
        destruct (resolve_values f d) as [l2 [r'|e]]; simpl;
          rewrite ?app_nil_r, <- ?app_assoc; reflexivity.
      * intros k' Hin Hin'. rewrite keys_app in Hin. apply in_app_or in Hin.
        destruct Hin as [Hin|[<-|[]]]; [|contradiction].
        apply (Hdisj k' Hin). now right.
    + rewrite fold_left_raise; [unfold bind; simpl; now rewrite ?app_nil_r|].
      intros log' e' [k' v'']. reflexivity.
Qed.

Lemma resolve_dict_ordinary (ambient client : Client) (d : dict) (id : value) :
  NoDup (keys d) ->
  get_block_document_id d = Ok id ->
  truthy id = false ->
  resolve_block_document_references ambient client (VDict d)
  = (d' <- resolve_values (resolve_block_document_references ambient ambient) d ;;
     ret (VDict d')).
Proof.
  intros Hnd Hid Hfalsy. cbn [resolve_block_document_references].
  rewrite Hid, Hfalsy.
  change (@ret dict []) with (@pair (list call) (result dict) [] (Ok [])).
  rewrite (fold_left_resolve_values
             (resolve_block_document_references ambient ambient) d [] [] Hnd)
    by (intros k []).
  unfold bind, ret.
  destruct (resolve_values _ d) as [l [r|e]]; simpl; now rewrite ?app_nil_r.
Qed.

(** A mapping whose ["$ref"] is a mapping without ["block_document_id"],
    or with a falsy one, is resolved as any other mapping: no call is made
    for the mapping itself, its values are resolved from first to last, and
    a result has the keys of the mapping, in their order.  The values are
    resolved with the client of the context, not with the one given. *)
Lemma resolve_ref_without_id (ambient client : Client) (d ref : dict) :
  NoDup (keys d) ->
  dict_get d "$ref" = Some (VDict ref) ->
  truthy (block_document_id_of ref) = false ->
  resolve_block_document_references ambient client (VDict d)
  = (d' <- resolve_values (resolve_block_document_references ambient ambient) d ;;
     ret (VDict d'))
  /\ forall log v,
      resolve_block_document_references ambient client (VDict d) = (log, Ok v) ->
      exists d', v = VDict d' /\ keys d' = keys d.
Proof.
  intros Hnd Href Hfalsy.
  assert (Hid : get_block_document_id d = Ok (block_document_id_of ref)).
  { unfold get_block_document_id, block_document_id_of. rewrite Href.
    destruct (dict_get ref "block_document_id"); reflexivity. }
  pose proof (resolve_dict_ordinary ambient client d _ Hnd Hid Hfalsy) as Heq.
  split; [exact Heq|].
  intros log v H. rewrite Heq in H. unfold bind, ret in H.
  destruct (resolve_values _ d) as [l [d'|e]] eqn:E; [|discriminate].
  inversion H; subst. exists d'. split; [reflexivity|].
  eapply resolve_values_keys; exact E.
Qed.

Lemma resolve_ref_without_id_witness :
  NoDup (keys [("$ref", VDict [("block_document_id", VStr "")]); ("x", VInt 1)])
  /\ resolve_block_document_references example_client example_client
       (VDict [("$ref", VDict [("block_document_id", VStr "")]); ("x", VInt 1)])
     = ([], Ok (VDict [("$ref", VDict [("block_document_id", VStr "")]); ("x", VInt 1)])).
Proof.
  assert (H : NoDup (keys [("$ref", VDict [("block_document_id", VStr "")]);
                           ("x", VInt 1)])).
  { repeat constructor; simpl; intuition discriminate. }
  split; [exact H|].
  rewrite (proj1 (resolve_ref_without_id example_client example_client
                    [("$ref", VDict [("block_document_id", VStr "")]); ("x", VInt 1)]
                    [("block_document_id", VStr "")] H eq_refl eq_refl)).
  reflexivity.
Defined.

(** The client given reaches the items of a sequence and not the values
    of a mapping: below a mapping, the client given is not consulted. *)
Lemma resolve_mapping_client (ambient client client' : Client) (d : dict) (id : value) :
  NoDup (keys d) ->
  get_block_document_id d = Ok id ->
  truthy id = false ->
  resolve_block_document_references ambient client (VDict d)
  = resolve_block_document_references ambient client' (VDict d).
Proof.
  intros Hnd Hid Hfalsy.
  now rewrite (resolve_dict_ordinary ambient client d id),
              (resolve_dict_ordinary ambient client' d id).
Qed.


(** C7, as the code has it.  A mapping whose ["$ref"] is a mapping with a
    truthy ["block_document_id"] is replaced by the data of the block
    document that [read_block_document] returns for that id, with that one
    call made (what the call raises is raised); so the reference to
    ["abc"] resolves to [{"k": 1}] when that is the data read for it. *)
Theorem resolve_reference_object (ambient client : Client) (d ref : dict) (id : value) :
  dict_get d "$ref" = Some (VDict ref) ->
  dict_get ref "block_document_id" = Some id ->
  truthy id = true ->
  resolve_block_document_references ambient client (VDict d)
  = ([ReadBlockDocument id],
     match read_block_document client id with
     | Found data => Ok data
     | Failed msg => Raise (ClientError msg)
     end)
  /\ (d = [("$ref", VDict [("block_document_id", VStr "abc")])] ->
      read_block_document client (VStr "abc") = Found (VDict [("k", VInt 1)]) ->
      snd (resolve_block_document_references ambient client (VDict d))
      = Ok (VDict [("k", VInt 1)])).
Proof.
  intros Href Hid Htruthy.
  assert (H : resolve_block_document_references ambient client (VDict d)
              = ([ReadBlockDocument id],
                 match read_block_document client id with
                 | Found data => Ok data
                 | Failed msg => Raise (ClientError msg)
                 end)).
  { cbn [resolve_block_document_references]. unfold get_block_document_id.
    rewrite Href, Hid, Htruthy. reflexivity. }
  split; [exact H|].
  intros -> Hread. rewrite H. simpl in Href. inversion Href; subst ref.
  simpl in Hid. inversion Hid; subst id. simpl. now rewrite Hread.
Qed.

Lemma resolve_reference_object_witness :
  resolve_block_document_references example_client example_client
    (VDict [("$ref", VDict [("block_document_id", VStr "abc")])])
  = ([ReadBlockDocument (VStr "abc")], Ok (VDict [("k", VInt 1)])).
Proof.
  apply (proj1 (resolve_reference_object example_client example_client
                  [("$ref", VDict [("block_document_id", VStr "abc")])]
                  [("block_document_id", VStr "abc")] (VStr "abc")
                  eq_refl eq_refl eq_refl)).
Defined.

(** The claim C7 fails at an id that is falsy: the reference object with
    the empty id is not replaced by what the client holds for that id; no
    call is made and the mapping is rebuilt. *)
Lemma resolve_reference_object_empty_id :
  let client := {| read_block_document := fun _ => Found (VDict [("k", VInt 1)]);
                   read_block_document_by_name := fun _ _ => Failed "not found" |} in
  dict_get [("$ref", VDict [("block_document_id", VStr "")])] "$ref"
  = Some (VDict [("block_document_id", VStr "")])
  /\ dict_get [("block_document_id", VStr "")] "block_document_id" = Some (VStr "")
  /\ read_block_document client (VStr "") = Found (VDict [("k", VInt 1)])
  /\ resolve_block_document_references client client
       (VDict [("$ref", VDict [("block_document_id", VStr "")])])
     = ([], Ok (VDict [("$ref", VDict [("block_document_id", VStr "")])])).
Proof. repeat split. Qed.

(** ** A second pass of [apply_values] *)

Lemma distinct_NoDup (l : list string) : distinct l = true -> NoDup l.
Proof.
  induction l as [|k l IH]; simpl; intros H; constructor;
    apply andb_true_iff in H; destruct H as [Hk Hl]; [|auto].
  intros Hin. apply negb_true_iff in Hk.
  assert (existsb (String.eqb k) l = true); [|congruence].
  apply existsb_exists. exists k. split; [assumption|apply String.eqb_refl].
Qed.

Section SecondPass.

Context {rt : PyRuntime}.
Variable values : dict.

Lemma fold_left_interpolate_step_unknown (l : list Placeholder) (template : string) :
  (forall p, In p l -> dict_get values (name p) = None) ->
  fold_left (interpolate_step values) l template = template.
Proof.
  induction l as [|p l IH]; simpl; intros H; [reflexivity|].
  unfold interpolate_step at 2. rewrite (H p) by now left.
  apply IH. intros q Hq. apply H. now right.
Qed.

Lemma apply_values_str_settled (s : string) :
  settled_str values s = true -> apply_values_str s values = VStr s.
Proof.
  unfold settled_str, is_single_standard, apply_values_str.
  intros H. apply andb_true_iff in H. destruct H as [Hunknown Hsingle].
  destruct (find_placeholders_str s) as [|p others] eqn:Hfind; [reflexivity|].
  replace (match others with [] => true | _ :: _ => false end
           && String.eqb (full_match p) s
           && PlaceholderType_eqb (type p) STANDARD) with false.
  - f_equal. apply fold_left_interpolate_step_unknown. intros q Hq.
    apply (Permutation_in _ (set_iter_perm _)) in Hq.
    rewrite forallb_forall in Hunknown. specialize (Hunknown q Hq).
    destruct (dict_get values (name q)); [discriminate|reflexivity].
  - destruct others; simpl; [|reflexivity].
    apply negb_true_iff in Hsingle. now rewrite Hsingle.
Qed.

(** A tree of the data model whose strings are settled is a fixed point
    of [apply_values]. *)
Lemma apply_values_fixed_point (r : value) :
  value_tree r = true -> settled values r = true -> apply_values r values = r.
Proof.
  induction r as [| | | | s | l IH | d IH |] using value_ind';
    intros Htree Hsettled; try reflexivity.
  - now apply apply_values_str_settled.
  - rewrite apply_values_list. f_equal.
    simpl in Htree, Hsettled.
    induction IH as [|v l Hv _ IHl]; simpl; [reflexivity|].
    simpl in Htree, Hsettled.
    apply andb_true_iff in Htree, Hsettled.
    destruct Htree as [Hv1 Hl1], Hsettled as [Hv2 Hl2].
    rewrite (Hv Hv1 Hv2), (IHl Hl1 Hl2).
    destruct v; try reflexivity. discriminate Hv1.
  - simpl in Htree. apply andb_true_iff in Htree. destruct Htree as [Hkeys Htree].
    rewrite (apply_values_dict values d (distinct_NoDup _ Hkeys)).
    f_equal. simpl in Hsettled. clear Hkeys.
    induction IH as [|[k v] d Hv _ IHd]; simpl; [reflexivity|].
    simpl in Htree, Hsettled, Hv.
    apply andb_true_iff in Htree, Hsettled.
    destruct Htree as [Hv1 Hd1], Hsettled as [Hv2 Hd2].
    rewrite (Hv Hv1 Hv2), (IHd Hd1 Hd2).
    destruct v; try reflexivity. discriminate Hv1.
Qed.

End SecondPass.

Lemma existsb_keys_dict_set {A : Type} (d : list (string * A)) (k k0 : string) (v : A) :
  existsb (String.eqb k0) (keys (dict_set d k v))
  = existsb (String.eqb k0) (keys d) || String.eqb k0 k.
Proof.
  induction d as [|[k' v'] d IH]; simpl.
  - now rewrite orb_false_r.
  - destruct (String.eqb_spec k' k) as [->|Hne]; simpl.
    + destruct (String.eqb k0 k); simpl; [reflexivity|now rewrite orb_false_r].
    + rewrite IH. now rewrite orb_assoc.
Qed.

Lemma distinct_dict_set {A : Type} (d : list (string * A)) (k : string) (v : A) :
  distinct (keys d) = true -> distinct (keys (dict_set d k v)) = true.
Proof.
  induction d as [|[k' v'] d IH]; simpl; intros H; [reflexivity|].
  apply andb_true_iff in H. destruct H as [Hk' Hd].
  destruct (String.eqb_spec k' k) as [->|Hne]; simpl.
  - now rewrite Hk', Hd.
  - rewrite existsb_keys_dict_set, (IH Hd).
    apply negb_true_iff in Hk'. rewrite Hk'.
    destruct (String.eqb_spec k' k); [contradiction|reflexivity].
Qed.

Lemma forallb_dict_set (q : string * value -> bool) (d : dict) (k : string) (v : value) :
  (forall k1 k2, q (k1, v) = q (k2, v)) ->
  forallb q d = true -> q (k, v) = true -> forallb q (dict_set d k v) = true.
Proof.
  intros Hq. induction d as [|[k' v'] d IH]; simpl; intros Hd Hv.
  - now rewrite Hv.
  - apply andb_true_iff in Hd. destruct Hd as [Hv' Hd].
    destruct (String.eqb k' k); simpl.
    + now rewrite (Hq k' k), Hv, Hd.
    + now rewrite Hv', IH.
Qed.

Section Idempotence.

Context {rt : PyRuntime}.
Variable values : dict.
Hypothesis values_trees : forall k v, In (k, v) values -> value_tree v = true.

Lemma apply_values_value_tree (template : value) :
  apply_values template values = VNotSet
  \/ value_tree (apply_values template values) = true.
Proof.
  induction template as [| | | | s | l IH | d IH |] using value_ind';
    try (now right); try (now left).
  - simpl. unfold apply_values_str.
    destruct (find_placeholders_str s) as [|p others]; [now right|].
    match goal with |- context [if ?c then _ else _] => destruct c end; [|now right].
    destruct (dict_get values (name p)) as [v|] eqn:E; [right|now left].
    apply dict_get_In in E. eauto.
  - right. rewrite apply_values_list. simpl.
    induction IH as [|v l Hv _ IHl]; simpl; [reflexivity|].
    unfold kept at 1. destruct Hv as [Hv|Hv].
    + rewrite Hv; simpl. exact IHl.
    + destruct (is_NotSet (apply_values v values)); simpl; [exact IHl|].
      now rewrite Hv, IHl.
  - right. simpl.
    enough (G : forall acc : dict,
               distinct (keys acc) = true ->
               forallb (fun '(key, x) => value_tree x) acc = true ->
               let acc' :=
                 fold_left
                   (fun updated_template '(key, v) =>
                      let updated_value := apply_values v values in
                      if is_NotSet updated_value then updated_template
                      else dict_set updated_template key updated_value)
                   d acc in
               distinct (keys acc') && forallb (fun '(key, x) => value_tree x) acc' = true)
      by (apply G; reflexivity).
    induction IH as [|[k v] d Hv _ IHd]; intros acc Hkeys Hacc; simpl.
    + now rewrite Hkeys, Hacc.
    + simpl in Hv. destruct (is_NotSet (apply_values v values)) eqn:E.
      * now apply IHd.
      * destruct Hv as [Hv|Hv]; [rewrite Hv in E; discriminate|].
        apply IHd; [now apply distinct_dict_set|].
        now apply forallb_dict_set.
Qed.

(** C8, as the code has it.  With a context of trees of the data model: a
    second pass returns the result of the first whenever, in that result,
    no placeholder names a key of the context and no string is one
    Standard placeholder on its own. *)
Theorem apply_values_idempotent_when_settled (t : value) :
  settled values (apply_values t values) = true ->
  apply_values (apply_values t values) values = apply_values t values.
Proof.
  intros Hsettled. destruct (apply_values_value_tree t) as [H|H].
  - now rewrite H.
  - now apply apply_values_fixed_point.
Qed.

End Idempotence.

Lemma apply_values_idempotent_when_settled_witness :
  (forall k v, In (k, v) [("a", VInt 1)] -> value_tree v = true)
  /\ settled [("a", VInt 1)]
       (apply_values (VDict [("k", VStr "{{a}}"); ("m", VStr "{{a}}-{{x}}")])
          [("a", VInt 1)]) = true
  /\ apply_values
       (apply_values (VDict [("k", VStr "{{a}}"); ("m", VStr "{{a}}-{{x}}")])
          [("a", VInt 1)]) [("a", VInt 1)]
     = VDict [("k", VInt 1); ("m", VStr "1-{{x}}")].
Proof.
  assert (H : forall k v, In (k, v) [("a", VInt 1)] -> value_tree v = true).
  { intros k v [E|[]]. inversion E; reflexivity. }
  split; [exact H|]. split; [reflexivity|].
  rewrite (apply_values_idempotent_when_settled (rt := example_runtime)
             [("a", VInt 1)] H
             (VDict [("k", VStr "{{a}}"); ("m", VStr "{{a}}-{{x}}")]) eq_refl).
  reflexivity.
Defined.

(** The claim C8 fails where the first pass leaves a string that is one
    placeholder: its name is no key of the context, and the second pass
    turns the string into [NotSet].  No set is iterated on the way, so the
    runtime plays no part. *)
Lemma apply_values_second_pass_differs :
  (forall rt : PyRuntime,
      @apply_values rt (VStr "{{a}}") [("a", VStr "{{x}}")] = VStr "{{x}}")
  /\ find_placeholders (VStr "{{x}}") = Ok [mkPlaceholder "{{x}}" "x" STANDARD]
  /\ dict_get [("a", VStr "{{x}}")] "x" = None
  /\ (forall rt : PyRuntime,
         @apply_values rt (@apply_values rt (VStr "{{a}}") [("a", VStr "{{x}}")])
           [("a", VStr "{{x}}")] = VNotSet).
Proof. repeat split. Qed.

(** The same with plain values in the context: the first pass empties
    the text around a placeholder that it cannot resolve, and the second
    pass drops what is left. *)
Lemma apply_values_second_pass_drops :
  (forall rt : PyRuntime,
      @apply_values rt (VStr "{{a}}{{x}}") [("a", VStr "")] = VStr "{{x}}")
  /\ (forall rt : PyRuntime,
         @apply_values rt (VStr "{{x}}") [("a", VStr "")] = VNotSet).
Proof.
  split; [|reflexivity].
  intros rt.
  pose proof (set_iter_perm [mkPlaceholder "{{a}}" "a" STANDARD;
                             mkPlaceholder "{{x}}" "x" STANDARD]) as Hperm.
  apply Permutation_sym, Permutation_length_2_inv in Hperm.
  change (apply_values (VStr "{{a}}{{x}}") [("a", VStr "")])
    with (VStr (fold_left
                  (interpolate_step [("a", VStr "")])
                  (set_iter [mkPlaceholder "{{a}}" "a" STANDARD;
                             mkPlaceholder "{{x}}" "x" STANDARD])
                  "{{a}}{{x}}")).
  destruct Hperm as [-> | ->]; reflexivity.
Qed.

(** ** The text of a placeholder *)

Lemma is_space_not_name_char (c : ascii) :
  is_space c = true -> is_name_char c = false.
Proof.
  destruct c as [[] [] [] [] [] [] [] []]; vm_compute; congruence.
Qed.

Lemma all_chars_app (q : ascii -> bool) (a b : string) :
  all_chars q (a ++ b) = all_chars q a && all_chars q b.
Proof. induction a; simpl; [reflexivity|]. now rewrite IHa, andb_assoc. Qed.

Lemma span_spec (q : ascii -> bool) (s a b : string) :
  span q s = (a, b) -> all_chars q a = true /\ stops q b.
Proof.
  revert a b; induction s as [|c s IH]; simpl; intros a b H.
  - inversion H; simpl; auto.
  - destruct (q c) eqn:Hc.
    + destruct (span q s) as [a' b'] eqn:E. inversion H; subst.
      destruct (IH _ _ eq_refl) as [Ha Hb]. simpl. now rewrite Hc, Ha.
    + inversion H; subst; simpl; auto.
Qed.

Lemma span_append (q : ascii -> bool) (a b : string) :
  all_chars q a = true -> stops q b -> span q (a ++ b) = (a, b).
Proof.
  induction a as [|c a IH]; simpl; intros Ha Hb.
  - destruct b as [|c b]; simpl in *; [reflexivity|now rewrite Hb].
  - apply andb_true_iff in Ha. destruct Ha as [Hc Ha].
    now rewrite Hc, IH.
Qed.

(** What [match_placeholder] finds is a placeholder text at the start of
    the string, and is the only one there. *)
Lemma match_placeholder_sound (s full nm rest : string) :
  match_placeholder s = Some (full, nm, rest) ->
  exists ws1 ws2,
    shaped ws1 nm ws2 = true
    /\ full = placeholder_text ws1 nm ws2
    /\ s = full ++ rest.
Proof.
  intros H. pose proof (match_placeholder_app _ _ _ _ H) as Happ.
  unfold match_placeholder in H.
  destruct (strip_prefix "{{" s) as [s1|] eqn:E0; try discriminate.
  destruct (span is_space s1) as [ws1 s2] eqn:E1.
  destruct (span is_name_char s2) as [nm' s3] eqn:E2.
  destruct nm' as [|n0 nm']; try discriminate.
  destruct (span is_space s3) as [ws2 s4] eqn:E3.
  destruct (strip_prefix "}}" s4) as [rest'|] eqn:E4; try discriminate.
  inversion H; subst; clear H.
  exists ws1, ws2. split; [|split; first [assumption | reflexivity]].
  apply span_spec in E1, E2, E3. unfold shaped.
  destruct E1 as [-> _], E2 as [-> _], E3 as [-> _]. reflexivity.
Qed.

Lemma match_placeholder_complete (ws1 nm ws2 rest : string) :
  shaped ws1 nm ws2 = true ->
  match_placeholder (placeholder_text ws1 nm ws2 ++ rest)
  = Some (placeholder_text ws1 nm ws2, nm, rest).
Proof.
  unfold shaped. intros H.
  apply andb_true_iff in H. destruct H as [H Hws2].
  apply andb_true_iff in H. destruct H as [H Hne].
  apply andb_true_iff in H. destruct H as [Hws1 Hnm].
  destruct nm as [|n0 nm]; [discriminate|]. simpl in Hnm.
  apply andb_true_iff in Hnm. destruct Hnm as [Hn0 Hnm].
  unfold match_placeholder, placeholder_text.
  replace (("{{" ++ ws1 ++ String n0 nm ++ ws2 ++ "}}") ++ rest)
    with ("{{" ++ (ws1 ++ (String n0 nm ++ (ws2 ++ ("}}" ++ rest)))))
    by (now norm_append).
  rewrite strip_prefix_append.
  rewrite (span_append is_space ws1 _ Hws1).
  2:{ simpl. destruct (is_space n0) eqn:E; [|reflexivity].
      apply is_space_not_name_char in E. congruence. }
  rewrite (span_append is_name_char (String n0 nm)).
  2:{ simpl. now rewrite Hn0, Hnm. }
  2:{ destruct ws2 as [|w ws2]; simpl; [reflexivity|].
      simpl in Hws2. apply andb_true_iff in Hws2.
      apply is_space_not_name_char. tauto. }
  rewrite (span_append is_space ws2 _ Hws2) by reflexivity.
  now rewrite strip_prefix_append.
Qed.

(** The pattern matches at the start of [s], capturing [nm] and leaving
    [rest], exactly when [s] is a placeholder text of name [nm] followed
    by [rest]: however a matcher tries the three repetitions, it finds
    what [match_placeholder] finds. *)
Lemma match_placeholder_iff (s full nm rest : string) :
  match_placeholder s = Some (full, nm, rest)
  <-> exists ws1 ws2,
      shaped ws1 nm ws2 = true
      /\ full = placeholder_text ws1 nm ws2
      /\ s = full ++ rest.
Proof.
  split; [apply match_placeholder_sound|].
  intros (ws1 & ws2 & Hs & -> & ->). now apply match_placeholder_complete.
Qed.

(** ** Interpolation *)

Lemma flatten_tokens (s : string) : flatten (tokens s) = s.
Proof.
  remember (String.length s) as n eqn:Hn.
  revert s Hn; induction n as [n IH] using lt_wf_ind; intros s Hn.
  destruct s as [|c s']; [now rewrite tokens_equation_1|].
  rewrite tokens_cons.
  destruct (match_placeholder (String c s')) as [[[full nm] rest]|] eqn:E; simpl.
  - rewrite (IH (String.length rest)); [| |reflexivity].
    + symmetry. now apply match_placeholder_app in E.
    + subst n. now apply match_placeholder_length in E.
  - rewrite (IH (String.length s')); [reflexivity| |reflexivity].
    subst n. simpl. lia.
Qed.

Lemma findall_tokens (s : string) : findall s = matches (tokens s).
Proof.
  remember (String.length s) as n eqn:Hn.
  revert s Hn; induction n as [n IH] using lt_wf_ind; intros s Hn.
  destruct s as [|c s']; [now rewrite tokens_equation_1, findall_equation_1|].
  rewrite tokens_cons, findall_cons.
  destruct (match_placeholder (String c s')) as [[[full nm] rest]|] eqn:E; simpl.
  - f_equal. apply (IH (String.length rest)); [|reflexivity].
    subst n. now apply match_placeholder_length in E.
  - apply (IH (String.length s')); [|reflexivity]. subst n. simpl. lia.
Qed.

Lemma tokens_placeholders_sound (s : string) :
  Forall (fun t => match t with Lit _ => True | Ph _ _ => sound t end) (tokens s).
Proof.
  remember (String.length s) as n eqn:Hn.
  revert s Hn; induction n as [n IH] using lt_wf_ind; intros s Hn.
  destruct s as [|c s']; [rewrite tokens_equation_1; constructor|].
  rewrite tokens_cons.
  destruct (match_placeholder (String c s')) as [[[full nm] rest]|] eqn:E;
    constructor; auto.
  - apply match_placeholder_sound in E. destruct E as (ws1 & ws2 & H1 & H2 & _).
    now exists ws1, ws2.
  - apply (IH (String.length rest)); [|reflexivity].
    subst n. now apply match_placeholder_length in E.
  - apply (IH (String.length s')); [|reflexivity]. subst n. simpl. lia.
Qed.

Lemma tokens_sound (s : string) :
  no_stray_brace s = true -> Forall sound (tokens s).
Proof.
  unfold no_stray_brace. intros H. rewrite forallb_forall in H.
  pose proof (tokens_placeholders_sound s) as Hp.
  rewrite Forall_forall in *. intros t Ht.
  specialize (H t Ht). specialize (Hp t Ht). destruct t; auto.
Qed.

Lemma all_chars_impl (q q' : ascii -> bool) (s : string) :
  (forall c, q c = true -> q' c = true) ->
  all_chars q s = true -> all_chars q' s = true.
Proof.
  intros Hq. induction s as [|c s IH]; simpl; [reflexivity|].
  intros H. apply andb_true_iff in H. destruct H as [Hc Hs].
  now rewrite (Hq c Hc), IH.
Qed.

Lemma is_space_not_brace (c : ascii) :
  is_space c = true -> negb (Ascii.eqb c "{") = true.
Proof. destruct c as [[] [] [] [] [] [] [] []]; vm_compute; congruence. Qed.

Lemma is_name_char_not_brace (c : ascii) :
  is_name_char c = true -> negb (Ascii.eqb c "{") = true.
Proof. destruct c as [[] [] [] [] [] [] [] []]; vm_compute; congruence. Qed.

(** Past its two opening braces a placeholder text has no
    opening brace, and is not empty. *)
Lemma placeholder_text_inside (ws1 nm ws2 : string) :
  shaped ws1 nm ws2 = true ->
  exists c inner,
    placeholder_text ws1 nm ws2 = String "{" (String "{" (String c inner))
    /\ no_open_brace (String c inner) = true.
Proof.
  unfold shaped. intros H.
  apply andb_true_iff in H. destruct H as [H Hws2].
  apply andb_true_iff in H. destruct H as [H Hne].
  apply andb_true_iff in H. destruct H as [Hws1 Hnm].
  assert (Hno : no_open_brace (ws1 ++ nm ++ ws2 ++ "}}") = true).
  { unfold no_open_brace. rewrite !all_chars_app.
    rewrite (all_chars_impl _ _ _ is_space_not_brace Hws1).
    rewrite (all_chars_impl _ _ _ is_name_char_not_brace Hnm).
    rewrite (all_chars_impl _ _ _ is_space_not_brace Hws2). reflexivity. }
  unfold placeholder_text. cbn [append].
  destruct (ws1 ++ nm ++ ws2 ++ "}}") as [|c inner] eqn:E.
  - destruct ws1; [|discriminate]. destruct nm; discriminate.
  - now exists c, inner.
Qed.

Section ReplaceTokens.

Variables (olds new : string).

Lemma replace_ne_literal (text rest : string) :
  no_open_brace text = true ->
  replace_ne "{" olds new (text ++ rest) = text ++ replace_ne "{" olds new rest.
Proof.
  induction text as [|c text IH]; simpl; intros H; [reflexivity|].
  apply andb_true_iff in H. destruct H as [Hc Htext].
  rewrite replace_ne_cons. cbn [strip_prefix].
  rewrite Ascii.eqb_sym. apply negb_true_iff in Hc. rewrite Hc.
  now rewrite IH.
Qed.

Variables (wo1 nmo wo2 : string).
Hypothesis old_shaped : shaped wo1 nmo wo2 = true.
Hypothesis old_text : String "{" olds = placeholder_text wo1 nmo wo2.

Lemma replace_ne_other_placeholder (ws1 nm ws2 rest : string) :
  shaped ws1 nm ws2 = true ->
  placeholder_text ws1 nm ws2 <> String "{" olds ->
  replace_ne "{" olds new (placeholder_text ws1 nm ws2 ++ rest)
  = placeholder_text ws1 nm ws2 ++ replace_ne "{" olds new rest.
Proof.
  intros Hshaped Hne.
  assert (H0 : strip_prefix (String "{" olds) (placeholder_text ws1 nm ws2 ++ rest) = None).
  { destruct (strip_prefix _ _) as [r|] eqn:E; [|reflexivity].
    exfalso. apply strip_prefix_app in E.
    pose proof (match_placeholder_complete ws1 nm ws2 rest Hshaped) as H1.
    pose proof (match_placeholder_complete wo1 nmo wo2 r old_shaped) as H2.
    rewrite <- old_text, <- E, H1 in H2. apply Hne. congruence. }
  destruct (placeholder_text_inside ws1 nm ws2 Hshaped) as (c & inner & Htext & Hno).
  destruct (placeholder_text_inside wo1 nmo wo2 old_shaped) as (co & innero & Hold & _).
  rewrite <- old_text in Hold. inversion Hold as [Holds]. clear Hold.
  rewrite Htext in *. cbn [append] in *. rewrite Holds in H0.
  rewrite replace_ne_cons, H0. f_equal.
  rewrite replace_ne_cons.
  assert (Hc : Ascii.eqb "{" c = false).
  { simpl in Hno. apply andb_true_iff in Hno. destruct Hno as [Hc _].
    rewrite Ascii.eqb_sym. now apply negb_true_iff in Hc. }
  cbn [strip_prefix]. rewrite Ascii.eqb_refl, Hc. f_equal.
  rewrite <- Holds.
  change (String c (inner ++ rest)) with (String c inner ++ rest).
  now apply replace_ne_literal.
Qed.

Lemma replace_ne_flatten (toks : list token) :
  Forall sound toks ->
  replace_ne "{" olds new (flatten toks)
  = flatten (map (subst_token (String "{" olds) new) toks).
Proof.
  induction 1 as [|t toks Ht _ IH]; [apply replace_ne_equation_1|].
  destruct t as [text|full nm]; cbn [flatten map token_text subst_token].
  - rewrite replace_ne_literal by exact Ht. now rewrite IH.
  - destruct Ht as (ws1 & ws2 & Hshaped & ->).
    destruct (String.eqb_spec (placeholder_text ws1 nm ws2) (String "{" olds)) as [E|E];
      cbn [flatten token_text].
    + rewrite E, replace_ne_head. now rewrite IH.
    + rewrite replace_ne_other_placeholder by assumption. now rewrite IH.
Qed.

End ReplaceTokens.

Lemma subst_token_sound (old new : string) (toks : list token) :
  no_open_brace new = true ->
  Forall sound toks -> Forall sound (map (subst_token old new) toks).
Proof.
  intros Hnew. induction 1 as [|t toks Ht _ IH]; simpl; constructor; auto.
  destruct t as [text|full nm]; simpl in *; auto.
  destruct (String.eqb full old); simpl; auto.
Qed.

Lemma placeholder_text_name (ws1 nm ws2 ws1' nm' ws2' : string) :
  shaped ws1 nm ws2 = true -> shaped ws1' nm' ws2' = true ->
  placeholder_text ws1 nm ws2 = placeholder_text ws1' nm' ws2' -> nm = nm'.
Proof.
  intros H H' E.
  pose proof (match_placeholder_complete ws1 nm ws2 "" H) as M.
  pose proof (match_placeholder_complete ws1' nm' ws2' "" H') as M'.
  rewrite E, M' in M. congruence.
Qed.

Lemma matches_In (toks : list token) (full nm : string) :
  In (full, nm) (matches toks) <-> In (Ph full nm) toks.
Proof.
  induction toks as [|[text|f n] toks IH]; simpl; [tauto| |].
  - rewrite IH. split; [auto|]. intros [H|H]; [discriminate|assumption].
  - rewrite IH. split; intros [H|H]; auto; left; congruence.
Qed.

(** The placeholders found in a string are those of its tokens. *)
Lemma find_placeholders_str_tokens (s : string) (p : Placeholder) :
  In p (find_placeholders_str s)
  <-> exists full nm,
      In (Ph full nm) (tokens s)
      /\ p = mkPlaceholder full nm (determine_placeholder_type nm).
Proof.
  unfold find_placeholders_str. rewrite nodup_In, in_map_iff, findall_tokens.
  split.
  - intros [[full nm] [<- Hin]]. exists full, nm. now rewrite <- matches_In.
  - intros (full & nm & Hin & ->). exists (full, nm). now rewrite matches_In.
Qed.

Section InterpolationSteps.

Context {rt : PyRuntime}.
Variable values : dict.

Lemma interpolate_step_rendering (template : string) (p : Placeholder) :
  interpolate_step values template p
  = match rendering_of values p with
    | Some r => replace (full_match p) r template
    | None => template
    end.
Proof.
  unfold interpolate_step, rendering_of.
  destruct (dict_get values (name p)) as [v|]; [|reflexivity].
  destruct (type p); [|reflexivity]. now destruct (is_None v).
Qed.

Lemma fold_left_interpolate_step_flatten (l : list Placeholder) (toks : list token) :
  Forall sound toks ->
  (forall p, In p l -> sound (Ph (full_match p) (name p))) ->
  (forall p r, In p l -> rendering_of values p = Some r -> no_open_brace r = true) ->
  fold_left (interpolate_step values) l (flatten toks)
  = flatten (map (fun t => fold_left (step_token values) l t) toks).
Proof.
  revert toks; induction l as [|p l IH]; intros toks Hsound Hshape Hrender.
  - simpl. now rewrite map_id.
  - cbn [fold_left]. rewrite interpolate_step_rendering.
    assert (Hmap : map (fun t => fold_left (step_token values) l (step_token values t p)) toks
                   = map (fun t => fold_left (step_token values) l t)
                       (map (fun t => step_token values t p) toks))
      by (now rewrite map_map).
    rewrite Hmap. clear Hmap.
    assert (Hl : forall q, In q l -> sound (Ph (full_match q) (name q)))
      by (intros q Hq; apply Hshape; now right).
    assert (Hr : forall q r, In q l -> rendering_of values q = Some r -> no_open_brace r = true)
      by (intros q r Hq; apply Hrender; now right).
    unfold step_token at 2.
    destruct (rendering_of values p) as [r|] eqn:E.
    + destruct (Hshape p (or_introl eq_refl)) as (ws1 & ws2 & Hshaped & Hfull).
      assert (Hold : exists olds, full_match p = String "{" olds)
        by (rewrite Hfull; eexists; reflexivity).
      destruct Hold as [olds Hold].
      rewrite Hold. cbn [replace].
      rewrite (replace_ne_flatten olds r ws1 (name p) ws2 Hshaped)
        by (congruence || assumption).
      apply IH; [|assumption|assumption].
      apply subst_token_sound; [|assumption].
      apply (Hrender p r); [now left|assumption].
    + rewrite map_id. now apply IH.
Qed.

Lemma fold_left_step_token_Lit (l : list Placeholder) (text : string) :
  fold_left (step_token values) l (Lit text) = Lit text.
Proof.
  induction l as [|p l IH]; simpl; [reflexivity|].
  unfold step_token at 2. now destruct (rendering_of values p).
Qed.

Lemma fold_left_step_token_Ph (l : list Placeholder) (full nm : string) :
  (forall p, In p l -> full_match p = full ->
             name p = nm /\ type p = determine_placeholder_type nm) ->
  fold_left (step_token values) l (Ph full nm)
  = if existsb (fun p => String.eqb full (full_match p)) l
    then render values (Ph full nm) else Ph full nm.
Proof.
  induction l as [|p l IH]; intros H; [reflexivity|].
  cbn [fold_left existsb].
  assert (Hl : forall q, In q l -> full_match q = full ->
                         name q = nm /\ type q = determine_placeholder_type nm)
    by (intros q Hq; apply H; now right).
  destruct (String.eqb_spec full (full_match p)) as [E|E]; cbn [orb].
  - destruct (H p (or_introl eq_refl) (eq_sym E)) as [Hname Htype].
    assert (Hrender : rendering_of values p = rendering values nm)
      by (unfold rendering_of, rendering; now rewrite Hname, Htype).
    unfold step_token at 2. rewrite Hrender. cbn [render].
    destruct (rendering values nm) as [r|] eqn:Er.
    + cbn [subst_token]. rewrite E, String.eqb_refl.
      apply fold_left_step_token_Lit.
    + rewrite (IH Hl). cbn [render]. rewrite Er. now destruct (existsb _ l).
  - unfold step_token at 2. destruct (rendering_of values p) as [r|]; [|now apply IH].
    cbn [subst_token]. destruct (String.eqb_spec full (full_match p)); [contradiction|].
    now apply IH.
Qed.

End InterpolationSteps.

Section MixedText.

Context {rt : PyRuntime}.
Variable values : dict.

Lemma rendering_of_found (template : string) (p : Placeholder) :
  In p (find_placeholders_str template) ->
  rendering_of values p = rendering values (name p).
Proof.
  intros Hin. apply find_placeholders_str_type in Hin.
  unfold rendering_of, rendering. now rewrite Hin.
Qed.

Lemma found_sound (template : string) (p : Placeholder) :
  In p (find_placeholders_str template) -> sound (Ph (full_match p) (name p)).
Proof.
  intros Hin. apply find_placeholders_str_tokens in Hin.
  destruct Hin as (full & nm & Hin & ->). cbn [full_match name].
  pose proof (tokens_placeholders_sound template) as H.
  rewrite Forall_forall in H. exact (H _ Hin).
Qed.

(** A string with placeholders that is not one Standard placeholder on
    its own resolves to a string, never to [NotSet]; and when no opening
    brace stands in it outside its placeholders, nor in a rendering put in
    their place, that string is its interpolation, in whatever order the
    set of its placeholders is iterated: every Standard placeholder whose
    name the context maps to a value other than [None] gives way to the
    rendering of that value, and all else stays as it is. *)
Theorem apply_values_interpolates (template : string) :
  find_placeholders_str template <> [] ->
  is_single_standard template = false ->
  (exists text, apply_values (VStr template) values = VStr text)
  /\ (no_stray_brace template = true ->
      (forall p r, In p (find_placeholders_str template) ->
                   rendering values (name p) = Some r -> no_open_brace r = true) ->
      apply_values (VStr template) values = VStr (interpolate values template)).
Proof.
  intros Hfound Hmixed.
  assert (Happly : apply_values (VStr template) values
                   = VStr (fold_left (interpolate_step values)
                             (set_iter (find_placeholders_str template)) template)).
  { cbn [apply_values]. unfold apply_values_str.
    unfold is_single_standard in Hmixed.
    destruct (find_placeholders_str template) as [|p [|q others]];
      [contradiction| |reflexivity].
    cbn [andb]. now rewrite Hmixed. }
  rewrite Happly. split; [eexists; reflexivity|].
  intros Hbrace Hrender. f_equal.
  set (l := set_iter (find_placeholders_str template)).
  assert (Hl : forall p, In p l <-> In p (find_placeholders_str template)).
  { intros p. unfold l. split; apply Permutation_in;
      [apply set_iter_perm | apply Permutation_sym, set_iter_perm]. }
  rewrite <- (flatten_tokens template) at 1.
  rewrite fold_left_interpolate_step_flatten.
  - unfold interpolate. f_equal. apply map_ext_in. intros [text|full nm] Hin.
    + apply fold_left_step_token_Lit.
    + pose proof (tokens_placeholders_sound template) as Hs.
      rewrite Forall_forall in Hs.
      destruct (Hs _ Hin) as (ws1 & ws2 & Hshaped & Hfull).
      rewrite fold_left_step_token_Ph.
      * replace (existsb (fun p => String.eqb full (full_match p)) l) with true;
          [reflexivity|].
        symmetry. apply existsb_exists.
        exists (mkPlaceholder full nm (determine_placeholder_type nm)).
        split; [|apply String.eqb_refl].
        apply Hl, find_placeholders_str_tokens. now exists full, nm.
      * intros p Hp Hpfull. apply Hl, find_placeholders_str_tokens in Hp.
        destruct Hp as (full' & nm' & Hin' & ->). cbn [full_match] in Hpfull.
        cbn [name type]. subst full'.
        destruct (Hs _ Hin') as (ws1' & ws2' & Hshaped' & Hfull').
        assert (nm' = nm); [|now subst].
        apply (placeholder_text_name ws1' nm' ws2' ws1 nm ws2); congruence.
  - now apply tokens_sound.
  - intros p Hp. apply Hl in Hp. now apply found_sound with template.
  - intros p r Hp Hr. apply Hl in Hp.
    rewrite (rendering_of_found template p Hp) in Hr. now apply (Hrender p r).
Qed.

End MixedText.

Lemma apply_values_interpolates_witness :
  find_placeholders_str "pre-{{x}}-{{ y }}-{{ prefect.blocks.a.b }}" <> []
  /\ is_single_standard "pre-{{x}}-{{ y }}-{{ prefect.blocks.a.b }}" = false
  /\ no_stray_brace "pre-{{x}}-{{ y }}-{{ prefect.blocks.a.b }}" = true
  /\ apply_values (VStr "pre-{{x}}-{{ y }}-{{ prefect.blocks.a.b }}") [("x", VInt 5)]
     = VStr "pre-5-{{ y }}-{{ prefect.blocks.a.b }}".
Proof.
  assert (H1 : find_placeholders_str "pre-{{x}}-{{ y }}-{{ prefect.blocks.a.b }}" <> [])
    by (vm_compute; discriminate).
  split; [exact H1|]. split; [reflexivity|]. split; [reflexivity|].
  rewrite (proj2 (apply_values_interpolates (rt := example_runtime)
                    [("x", VInt 5)] "pre-{{x}}-{{ y }}-{{ prefect.blocks.a.b }}"
                    H1 eq_refl) eq_refl).
  - reflexivity.
  - intros p r Hin. vm_compute in Hin.
    destruct Hin as [<-|[<-|[<-|[]]]]; vm_compute; intros E; inversion E; reflexivity.
Defined.

(** C2 at the failing input.  The string is the two Standard
    placeholders [{{a}}] and [{{b}}], and the context gives each the text
    of the other as its value.  Each placeholder replaced by the rendering
    of its value is [{{b}}{{a}}]; the loop replaces in the text as the
    turns before have left it, so its second turn also replaces what the
    first has put in, and the result is [{{a}}{{a}}] or [{{b}}{{b}}],
    by the order in which the set of the two placeholders is iterated. *)
Theorem apply_values_replaces_in_turn :
  find_placeholders (VStr "{{a}}{{b}}")
  = Ok [mkPlaceholder "{{a}}" "a" STANDARD; mkPlaceholder "{{b}}" "b" STANDARD]
  /\ (forall rt : PyRuntime,
         @interpolate rt [("a", VStr "{{b}}"); ("b", VStr "{{a}}")] "{{a}}{{b}}"
         = "{{b}}{{a}}")
  /\ (forall rt : PyRuntime,
         @apply_values rt (VStr "{{a}}{{b}}") [("a", VStr "{{b}}"); ("b", VStr "{{a}}")]
         = VStr "{{a}}{{a}}"
         \/ @apply_values rt (VStr "{{a}}{{b}}") [("a", VStr "{{b}}"); ("b", VStr "{{a}}")]
            = VStr "{{b}}{{b}}")
  /\ (forall rt : PyRuntime,
         @apply_values rt (VStr "{{a}}{{b}}") [("a", VStr "{{b}}"); ("b", VStr "{{a}}")]
         <> VStr (@interpolate rt [("a", VStr "{{b}}"); ("b", VStr "{{a}}")] "{{a}}{{b}}")).
Proof.
  assert (H : forall rt : PyRuntime,
             @apply_values rt (VStr "{{a}}{{b}}") [("a", VStr "{{b}}"); ("b", VStr "{{a}}")]
             = VStr "{{a}}{{a}}"
             \/ @apply_values rt (VStr "{{a}}{{b}}") [("a", VStr "{{b}}"); ("b", VStr "{{a}}")]
                = VStr "{{b}}{{b}}").
  { intros rt.
    pose proof (set_iter_perm [mkPlaceholder "{{a}}" "a" STANDARD;
                               mkPlaceholder "{{b}}" "b" STANDARD]) as Hperm.
    apply Permutation_sym, Permutation_length_2_inv in Hperm.
    change (apply_values (VStr "{{a}}{{b}}") [("a", VStr "{{b}}"); ("b", VStr "{{a}}")])
      with (VStr (fold_left
                    (interpolate_step [("a", VStr "{{b}}"); ("b", VStr "{{a}}")])
                    (set_iter [mkPlaceholder "{{a}}" "a" STANDARD;
                               mkPlaceholder "{{b}}" "b" STANDARD])
                    "{{a}}{{b}}")).
    destruct Hperm as [-> | ->]; [left|right]; reflexivity. }
  split; [reflexivity|]. split; [intros rt; reflexivity|]. split; [exact H|].
  intros rt.
  change (@interpolate rt [("a", VStr "{{b}}"); ("b", VStr "{{a}}")] "{{a}}{{b}}")
    with "{{b}}{{a}}".
  destruct (H rt) as [-> | ->]; discriminate.
Qed.


(** ** Further properties *)

(** The placeholders of a string form a set: one found twice counts once. *)
Example find_placeholders_twice :
  find_placeholders (VStr "{{a}} {{a}}") = Ok [mkPlaceholder "{{a}}" "a" STANDARD].
Proof. reflexivity. Qed.

Lemma findall_placeholder_text (ws1 nm ws2 : string) :
  shaped ws1 nm ws2 = true ->
  findall (placeholder_text ws1 nm ws2) = [(placeholder_text ws1 nm ws2, nm)].
Proof.
  intros H.
  pose proof (match_placeholder_complete ws1 nm ws2 "" H) as M.
  rewrite append_nil_r in M.
  unfold placeholder_text in *. cbn [append] in *.
  now rewrite findall_cons, M, findall_equation_1.
Qed.

(** A placeholder text of a name without the prefix, and nothing else,
    resolves to the value the context holds for the name, as it is, or to
    [NotSet]. *)
Lemma apply_values_placeholder_text {rt : PyRuntime} (values : dict) (ws1 nm ws2 : string) :
  shaped ws1 nm ws2 = true ->
  startswith nm BLOCK_DOCUMENT_PLACEHOLDER_PREFIX = false ->
  apply_values (VStr (placeholder_text ws1 nm ws2)) values
  = match dict_get values nm with
    | Some v => v
    | None => VNotSet
    end.
Proof.
  intros Hshaped Hprefix.
  assert (Hfind : find_placeholders_str (placeholder_text ws1 nm ws2)
                  = [mkPlaceholder (placeholder_text ws1 nm ws2) nm STANDARD]).
  { unfold find_placeholders_str. rewrite (findall_placeholder_text _ _ _ Hshaped).
    cbn [map nodup]. unfold determine_placeholder_type. rewrite Hprefix.
    now destruct (in_dec _ _ _). }
  cbn [apply_values]. unfold apply_values_str. rewrite Hfind.
  cbn [full_match name type]. now rewrite String.eqb_refl.
Qed.

Lemma apply_values_placeholder_text_witness :
  apply_values (VStr "{{  n.m-1 }}") [("n.m-1", VDict [("k", VFloat S754_nan)])]
  = VDict [("k", VFloat S754_nan)].
Proof.
  apply (apply_values_placeholder_text (rt := example_runtime)
           [("n.m-1", VDict [("k", VFloat S754_nan)])] "  " "n.m-1" " ");
    reflexivity.
Defined.

Lemma fold_left_resolve_items (f : value -> M value) (l acc : list value) (log : list call) :
  fold_left
    (fun m item =>
       items <- m ;;
       resolved <- f item ;;
       ret (items ++ [resolved])%list)
    l (log, Ok acc)
  = (items <- (log, Ok acc) ;; r <- resolve_items f l ;; ret (items ++ r)%list).
Proof.
  revert acc log; induction l as [|item l IH]; intros acc log.
  - simpl. now rewrite !app_nil_r.
  - cbn [fold_left resolve_items].
    assert (Hs : (items <- (log, Ok acc) ;;
                  resolved <- f item ;;
                  ret (items ++ [resolved])%list)
                 = let (l1, r) := f item in
                   ((log ++ l1)%list,
                    match r with
                    | Ok v' => Ok (acc ++ [v'])%list
                    | Raise e => Raise e
                    end)).
    { unfold bind, ret.
      destruct (f item) as [l1 [v'|e]]; rewrite ?app_nil_r; reflexivity. }
    rewrite Hs. clear Hs. destruct (f item) as [l1 [v'|e]].
    + rewrite IH. unfold bind, ret.
      destruct (resolve_items f l) as [l2 [r'|e]]; simpl;
        rewrite ?app_nil_r, <- ?app_assoc; reflexivity.
    + rewrite fold_left_raise; [unfold bind; simpl; now rewrite ?app_nil_r|].
      intros log' e' b. reflexivity.
Qed.

(** Why the template must have no stray brace: text around a placeholder
    can close up with the rendering put in its place into the text of
    another placeholder, which a later turn of the loop then replaces.
    Here with a runtime that iterates the set in the order found. *)
Lemma apply_values_stray_brace :
  no_stray_brace "{{ {{a}} }}{{ b }}" = false
  /\ @interpolate example_runtime [("a", VStr "b"); ("b", VStr "Z")] "{{ {{a}} }}{{ b }}"
     = "{{ b }}Z"
  /\ @apply_values example_runtime (VStr "{{ {{a}} }}{{ b }}")
       [("a", VStr "b"); ("b", VStr "Z")]
     = VStr "ZZ".
Proof. repeat split. Qed.

(** ** What [find_placeholders] finds *)

Lemma flatten_app (l1 l2 : list token) :
  flatten (l1 ++ l2) = flatten l1 ++ flatten l2.
Proof.
  induction l1 as [|t l1 IH]; simpl; [reflexivity|].
  now rewrite IH, append_assoc.
Qed.

Lemma tokens_occur (s : string) (t : token) :
  In t (tokens s) -> occurs (token_text t) s.
Proof.
  intros Hin. apply in_split in Hin. destruct Hin as (l1 & l2 & E).
  exists (flatten l1), (flatten l2).
  rewrite <- (flatten_tokens s) at 1. rewrite E, flatten_app. reflexivity.
Qed.

(** Every placeholder found in a string has as full match a text of the
    pattern that occurs in the string, around the name it carries; its
    kind is BlockDocument exactly when the name starts with the prefix. *)
Theorem find_placeholders_str_sound (template : string) (p : Placeholder) :
  In p (find_placeholders_str template) ->
  (exists ws1 ws2,
      shaped ws1 (name p) ws2 = true
      /\ full_match p = placeholder_text ws1 (name p) ws2)
  /\ occurs (full_match p) template
  /\ (type p = BLOCK_DOCUMENT
      <-> startswith (name p) BLOCK_DOCUMENT_PLACEHOLDER_PREFIX = true).
Proof.
  intros Hin. split; [|split].
  - apply (found_sound template p Hin).
  - apply find_placeholders_str_tokens in Hin.
    destruct Hin as (full & nm & Hin & ->).
    apply (tokens_occur template (Ph full nm) Hin).
  - rewrite (find_placeholders_str_type template p Hin).
    unfold determine_placeholder_type.
    destruct (startswith (name p) BLOCK_DOCUMENT_PLACEHOLDER_PREFIX);
      split; congruence.
Qed.

Lemma find_placeholders_str_sound_witness :
  In (mkPlaceholder "{{ prefect.blocks.a.b }}" "prefect.blocks.a.b" BLOCK_DOCUMENT)
    (find_placeholders_str "x-{{ prefect.blocks.a.b }}-{{y}}")
  /\ occurs "{{ prefect.blocks.a.b }}" "x-{{ prefect.blocks.a.b }}-{{y}}".
Proof.
  assert (H : In (mkPlaceholder "{{ prefect.blocks.a.b }}" "prefect.blocks.a.b"
                    BLOCK_DOCUMENT)
                (find_placeholders_str "x-{{ prefect.blocks.a.b }}-{{y}}"))
    by (vm_compute; auto).
  split; [exact H|].
  exact (proj1 (proj2 (find_placeholders_str_sound _ _ H))).
Defined.

(** Two strings that are equal, cut in two ways. *)
Lemma append_eq_split (a x f r : string) :
  a ++ x = f ++ r ->
  (exists a', a = f ++ a' /\ r = a' ++ x)
  \/ (exists c f', f = a ++ String c f' /\ x = String c f' ++ r).
Proof.
  revert f; induction a as [|c a IH]; intros f E.
  - destruct f as [|d f].
    + left. exists "". simpl in *. auto.
    + right. exists d, f. simpl in *. auto.
  - destruct f as [|d f].
    + left. exists (String c a). simpl in *. auto.
    + simpl in E. injection E as Hc Ht. subst d.
      destruct (IH f Ht) as [(a' & -> & ->)|(c' & f' & -> & ->)].
      * left. now exists a'.
      * right. now exists c', f'.
Qed.

Lemma no_open_brace_head (c : ascii) (s : string) :
  no_open_brace (String c s) = true -> c <> "{"%char.
Proof.
  unfold no_open_brace. simpl. intros H E. subst c. discriminate H.
Qed.

(** A match of the pattern does not reach into a later text of the
    pattern. *)
Lemma match_before_text (a full nm rest ws1 nm' ws2 b : string) :
  match_placeholder (a ++ placeholder_text ws1 nm' ws2 ++ b) = Some (full, nm, rest) ->
  shaped ws1 nm' ws2 = true ->
  a <> "" ->
  exists a', a = full ++ a' /\ rest = a' ++ placeholder_text ws1 nm' ws2 ++ b.
Proof.
  intros Hm Hshaped Ha.
  pose proof (match_placeholder_sound _ _ _ _ Hm) as (w1 & w2 & Hs & Hfull & Happ).
  destruct (append_eq_split _ _ _ _ Happ) as [H|(c & f' & Hf & Hx)]; [exact H|].
  exfalso.
  destruct (placeholder_text_inside _ _ _ Hs) as (c0 & inner & Hin & Hno).
  destruct (placeholder_text_inside _ _ _ Hshaped) as (c1 & inner1 & Hin1 & Hno1).
  rewrite Hin1 in Hx. rewrite Hfull, Hin in Hf.
  cbn [append] in Hx. injection Hx as Hc Hrest. subst c.
  destruct a as [|a0 [|a1 a]]; [now apply Ha| |].
  - cbn [append] in Hf. injection Hf as _ Hf'. subst f'.
    injection Hrest as Hc0 _.
    now apply (no_open_brace_head _ _ Hno).
  - cbn [append] in Hf. injection Hf as _ _ Hf'.
    unfold no_open_brace in Hno. rewrite Hf', all_chars_app in Hno.
    apply andb_true_iff in Hno. destruct Hno as [_ Hno].
    simpl in Hno. discriminate Hno.
Qed.

Lemma findall_complete (a ws1 nm ws2 b : string) :
  shaped ws1 nm ws2 = true ->
  In (placeholder_text ws1 nm ws2, nm)
    (findall (a ++ placeholder_text ws1 nm ws2 ++ b)).
Proof.
  intros Hshaped.
  remember (String.length a) as n eqn:Hn.
  revert a Hn; induction n as [n IH] using lt_wf_ind; intros a Hn.
  destruct a as [|c a].
  - pose proof (match_placeholder_complete ws1 nm ws2 b Hshaped) as M.
    destruct (placeholder_text_inside _ _ _ Hshaped) as (c0 & inner & Hin & _).
    cbn [append]. rewrite Hin in *. cbn [append] in *.
    rewrite findall_cons, M. now left.
  - cbn [append]. rewrite findall_cons.
    destruct (match_placeholder (String c (a ++ placeholder_text ws1 nm ws2 ++ b)))
      as [[[full nm'] rest]|] eqn:E.
    + change (String c (a ++ placeholder_text ws1 nm ws2 ++ b))
        with (String c a ++ placeholder_text ws1 nm ws2 ++ b) in E.
      destruct (match_before_text _ _ _ _ _ _ _ _ E Hshaped) as (a' & Ha & ->);
        [discriminate|].
      right. apply (IH (String.length a')); [|reflexivity].
      subst n. rewrite Ha, length_append.
      pose proof (match_placeholder_sound _ _ _ _ E) as (w1 & w2 & Hs & Hfull & _).
      destruct (placeholder_text_inside _ _ _ Hs) as (c0 & inner & Hin & _).
      rewrite Hfull, Hin. simpl. lia.
    + apply (IH (String.length a)); [|reflexivity]. subst n. simpl. lia.
Qed.

(** Every text of the pattern that occurs in a string is found, with its
    name and the kind of its name. *)
Theorem find_placeholders_str_complete (a ws1 nm ws2 b : string) :
  shaped ws1 nm ws2 = true ->
  In (mkPlaceholder (placeholder_text ws1 nm ws2) nm (determine_placeholder_type nm))
    (find_placeholders_str (a ++ placeholder_text ws1 nm ws2 ++ b)).
Proof.
  intros Hshaped. unfold find_placeholders_str. apply nodup_In.
  apply in_map_iff. exists (placeholder_text ws1 nm ws2, nm).
  split; [reflexivity|]. now apply findall_complete.
Qed.

Lemma find_placeholders_str_complete_witness :
  shaped " " "x.y" "" = true
  /\ In (mkPlaceholder "{{ x.y}}" "x.y" STANDARD)
       (find_placeholders_str "{{{ {{a}} {{ x.y}}}} tail").
Proof.
  split; [reflexivity|].
  exact (find_placeholders_str_complete "{{{ {{a}} " " " "x.y" "" "}} tail" eq_refl).
Defined.

Lemma set_union_In (sets : list (list Placeholder)) (p : Placeholder) :
  In p (set_union sets) <-> exists ps, In ps sets /\ In p ps.
Proof.
  unfold set_union. rewrite nodup_In, in_concat. reflexivity.
Qed.

(** The placeholders of the strings among [l], when every call on an item
    of [l] behaves as [find_placeholders_outcome] says. *)
Definition find_placeholders_outcome (v : value) : Prop :=
  if has_None_or_NotSet v
  then find_placeholders v = Raise ValueError_unexpected_type
  else exists ps,
      find_placeholders v = Ok ps
      /\ NoDup ps
      /\ forall p, In p ps
                   <-> exists s, In s (tree_strings v) /\ In p (find_placeholders_str s).

Lemma sequence_find_placeholders {X : Type} (f : X -> value) (l : list X) :
  Forall (fun x => find_placeholders_outcome (f x)) l ->
  if existsb (fun x => has_None_or_NotSet (f x)) l
  then sequence (map (fun x => find_placeholders (f x)) l)
       = Raise ValueError_unexpected_type
  else exists sets,
      sequence (map (fun x => find_placeholders (f x)) l) = Ok sets
      /\ forall p, (exists ps, In ps sets /\ In p ps)
                   <-> exists s, In s (flat_map (fun x => tree_strings (f x)) l)
                                 /\ In p (find_placeholders_str s).
Proof.
  induction 1 as [|x l Hx _ IH]; simpl.
  - exists []. split; [reflexivity|].
    intros p. split; [intros (ps & [] & _)|intros (s & [] & _)].
  - unfold find_placeholders_outcome in Hx.
    destruct (has_None_or_NotSet (f x)); simpl.
    + now rewrite Hx.
    + destruct Hx as (ps & -> & _ & Hps).
      destruct (existsb _ l).
      * now rewrite IH.
      * destruct IH as (sets & -> & Hsets). exists (ps :: sets).
        split; [reflexivity|]. intros p. split.
        -- intros (ps' & [<-|Hin] & Hp).
           ++ apply Hps in Hp. destruct Hp as (s & Hs & Hp).
              exists s. split; [apply in_or_app; now left|assumption].
           ++ destruct (proj1 (Hsets p) (ex_intro _ ps' (conj Hin Hp))) as (s & Hs & Hp').
              exists s. split; [apply in_or_app; now right|assumption].
        -- intros (s & Hs & Hp). apply in_app_or in Hs. destruct Hs as [Hs|Hs].
           ++ exists ps. split; [now left|]. apply Hps. now exists s.
           ++ destruct (proj2 (Hsets p) (ex_intro _ s (conj Hs Hp))) as (ps' & Hin & Hp').
              exists ps'. split; [now right|assumption].
Qed.

(** [find_placeholders] raises exactly on the values in which [None] or
    [NotSet] stands somewhere; on any other value it returns, without
    repeats, the placeholders of the strings that stand in it as items and
    dict values, and nothing from the keys. *)
Theorem find_placeholders_tree (template : value) :
  (find_placeholders template = Raise ValueError_unexpected_type
   <-> has_None_or_NotSet template = true)
  /\ (has_None_or_NotSet template = false ->
      exists ps,
        find_placeholders template = Ok ps
        /\ NoDup ps
        /\ forall p, In p ps
                     <-> exists s, In s (tree_strings template)
                                   /\ In p (find_placeholders_str s)).
Proof.
  assert (H : find_placeholders_outcome template).
  { induction template as [| | | | s | l IH | d IH |] using value_ind';
      unfold find_placeholders_outcome; simpl; try reflexivity.
    - exists []. repeat split; try constructor; try contradiction.
      intros (s & [] & _).
    - exists []. repeat split; try constructor; try contradiction.
      intros (s & [] & _).
    - exists []. repeat split; try constructor; try contradiction.
      intros (s & [] & _).
    - exists (find_placeholders_str s). split; [reflexivity|].
      split; [apply NoDup_nodup|]. intros p. split.
      + intros Hp. exists s. split; [now left|assumption].
      + intros (s' & [<-|[]] & Hp). assumption.
    - assert (Hseq :
               if existsb has_None_or_NotSet l
               then sequence (map find_placeholders l) = Raise ValueError_unexpected_type
               else exists sets,
                   sequence (map find_placeholders l) = Ok sets
                   /\ forall p, (exists ps, In ps sets /\ In p ps)
                                <-> exists s, In s (flat_map tree_strings l)
                                              /\ In p (find_placeholders_str s))
        by exact (sequence_find_placeholders (fun x => x) l IH).
      destruct (existsb has_None_or_NotSet l).
      + now rewrite Hseq.
      + destruct Hseq as (sets & -> & Hsets). exists (set_union sets).
        split; [reflexivity|]. split; [apply NoDup_nodup|].
        intros p. rewrite set_union_In. apply Hsets.
    - pose proof (sequence_find_placeholders snd d IH) as Hseq.
      assert (E1 : map (fun '(key, v) => find_placeholders v) d
                   = map (fun x => find_placeholders (snd x)) d)
        by (apply map_ext; now intros [k v]).
      assert (E2 : existsb (fun '(key, x) => has_None_or_NotSet x) d
                   = existsb (fun x => has_None_or_NotSet (snd x)) d)
        by (clear; induction d as [|[k v] d IHd]; simpl; congruence).
      assert (E3 : flat_map (fun '(key, x) => tree_strings x) d
                   = flat_map (fun x => tree_strings (snd x)) d)
        by (clear; induction d as [|[k v] d IHd]; simpl; congruence).
      rewrite E1, E2, E3.
      destruct (existsb _ d).
      + now rewrite Hseq.
      + destruct Hseq as (sets & -> & Hsets). exists (set_union sets).
        split; [reflexivity|]. split; [apply NoDup_nodup|].
        intros p. rewrite set_union_In. apply Hsets. }
  unfold find_placeholders_outcome in H.
  destruct (has_None_or_NotSet template).
  - split; [split; auto|discriminate].
  - destruct H as (ps & Hps & Hrest). split.
    + rewrite Hps. split; discriminate.
    + intros _. exists ps. auto.
Qed.

Lemma find_placeholders_tree_witness :
  has_None_or_NotSet (VDict [("{{key}}", VList [VStr "{{a}}-{{b}}"; VInt 1; VStr "{{a}}"])])
  = false
  /\ exists ps,
      find_placeholders (VDict [("{{key}}", VList [VStr "{{a}}-{{b}}"; VInt 1; VStr "{{a}}"])])
      = Ok ps /\ NoDup ps.
Proof.
  split; [reflexivity|].
  destruct (proj2 (find_placeholders_tree
                     (VDict [("{{key}}", VList [VStr "{{a}}-{{b}}"; VInt 1; VStr "{{a}}"])]))
                  eq_refl) as (ps & H1 & H2 & _).
  exists ps. auto.
Defined.

(** ** What [apply_values] leaves alone *)

Lemma fold_left_ext_in {A B : Type} (f g : A -> B -> A) (l : list B) (a : A) :
  (forall a' b, In b l -> f a' b = g a' b) ->
  fold_left f l a = fold_left g l a.
Proof.
  revert a; induction l as [|b l IH]; intros a H; simpl; [reflexivity|].
  rewrite (H a b) by now left. apply IH. intros a' b' Hb. apply H. now right.
Qed.

Lemma settled_without_placeholders (values : dict) (t : value) :
  (forall s, In s (tree_strings t) -> find_placeholders_str s = []) ->
  settled values t = true.
Proof.
  induction t as [| | | | s | l IH | d IH |] using value_ind';
    intros H; try reflexivity.
  - simpl. unfold settled_str, is_single_standard.
    now rewrite (H s) by now left.
  - simpl in *. apply forallb_forall. intros x Hx.
    rewrite Forall_forall in IH. apply (IH x Hx).
    intros s Hs. apply H. apply in_flat_map. now exists x.
  - simpl in *. apply forallb_forall. intros [k x] Hx.
    rewrite Forall_forall in IH. apply (IH (k, x) Hx).
    intros s Hs. apply H. apply in_flat_map. now exists (k, x).
Qed.

Section LeftAlone.

Context {rt : PyRuntime}.

(** A tree of the data model in which no string has a placeholder is
    returned as it is, whatever the context. *)
Theorem apply_values_without_placeholders (values : dict) (t : value) :
  value_tree t = true ->
  (forall s, In s (tree_strings t) -> find_placeholders_str s = []) ->
  apply_values t values = t.
Proof.
  intros Htree Hnone. apply apply_values_fixed_point; [assumption|].
  now apply settled_without_placeholders.
Qed.

Lemma apply_values_str_frame (values values' : dict) (s : string) :
  (forall p, In p (find_placeholders_str s) ->
             dict_get values (name p) = dict_get values' (name p)) ->
  apply_values_str s values = apply_values_str s values'.
Proof.
  intros H. unfold apply_values_str.
  destruct (find_placeholders_str s) as [|p others] eqn:Hfind; [reflexivity|].
  rewrite (H p) by now left.
  destruct (_ && _ && _); [reflexivity|]. f_equal.
  apply fold_left_ext_in. intros t q Hq.
  apply (Permutation_in _ (set_iter_perm _)) in Hq.
  unfold interpolate_step. now rewrite (H q Hq).
Qed.

(** The result depends on the context only through the names of the
    placeholders of the template: two contexts that agree on those names
    give the same result. *)
Theorem apply_values_context_frame (values values' : dict) (t : value) :
  (forall s p, In s (tree_strings t) -> In p (find_placeholders_str s) ->
               dict_get values (name p) = dict_get values' (name p)) ->
  apply_values t values = apply_values t values'.
Proof.
  induction t as [| | | | s | l IH | d IH |] using value_ind';
    intros H; try reflexivity.
  - simpl. apply apply_values_str_frame. intros p Hp. apply (H s p); [now left|assumption].
  - simpl. f_equal. apply fold_left_ext_in. intros acc x Hx.
    rewrite Forall_forall in IH. rewrite (IH x Hx); [reflexivity|].
    intros s p Hs Hp. apply (H s p); [|assumption].
    simpl. apply in_flat_map. now exists x.
  - simpl. f_equal. apply fold_left_ext_in. intros acc [k x] Hx.
    rewrite Forall_forall in IH. pose proof (IH (k, x) Hx) as E. cbn [snd] in E.
    rewrite E; [reflexivity|].
    intros s p Hs Hp. apply (H s p); [|assumption].
    simpl. apply in_flat_map. now exists (k, x).
Qed.

Lemma fold_left_interpolate_step_none (values : dict) (l : list Placeholder)
  (template : string) :
  (forall p, In p l -> rendering_of values p = None) ->
  fold_left (interpolate_step values) l template = template.
Proof.
  induction l as [|p l IH]; simpl; intros H; [reflexivity|].
  rewrite interpolate_step_rendering, (H p) by now left.
  apply IH. intros q Hq. apply H. now right.
Qed.

Lemma apply_values_str_none (values : dict) (template : string) :
  is_single_standard template = false ->
  (forall p, In p (find_placeholders_str template) -> rendering_of values p = None) ->
  apply_values_str template values = VStr template.
Proof.
  intros Hmixed Hnone. unfold apply_values_str.
  unfold is_single_standard in Hmixed.
  destruct (find_placeholders_str template) as [|p others] eqn:Hfind; [reflexivity|].
  replace (match others with [] => true | _ :: _ => false end
           && String.eqb (full_match p) template
           && PlaceholderType_eqb (type p) STANDARD) with false
    by (destruct others; simpl; congruence).
  f_equal. apply fold_left_interpolate_step_none. intros q Hq.
  apply Hnone. apply (Permutation_in _ (set_iter_perm _) Hq).
Qed.

(** A string whose placeholders are all of kind BlockDocument is returned
    as it is, whatever the context holds, also under the names of those
    placeholders; so resolving the references after the values is
    resolving them in the string itself. *)
Theorem apply_values_keeps_block_placeholders
  (values : dict) (ambient client : Client) (template : string) :
  (forall p, In p (find_placeholders_str template) -> type p = BLOCK_DOCUMENT) ->
  apply_values (VStr template) values = VStr template
  /\ resolve_block_document_references ambient client
       (apply_values (VStr template) values)
     = resolve_block_document_references ambient client (VStr template).
Proof.
  intros Hblock.
  assert (H : apply_values (VStr template) values = VStr template).
  { cbn [apply_values]. apply apply_values_str_none.
    - unfold is_single_standard.
      destruct (find_placeholders_str template) as [|p [|q others]] eqn:Hfind;
        try reflexivity.
      rewrite (Hblock p) by now left. simpl. apply andb_false_r.
    - intros p Hp. unfold rendering_of. rewrite (Hblock p Hp).
      now destruct (dict_get values (name p)). }
  split; [exact H|now rewrite H].
Qed.

End LeftAlone.

Lemma apply_values_without_placeholders_witness :
  apply_values (VDict [("{{k}}", VList [VStr "a {b} }}"; VNone; VFloat S754_nan])])
    [("k", VInt 1); ("b", VInt 2)]
  = VDict [("{{k}}", VList [VStr "a {b} }}"; VNone; VFloat S754_nan])].
Proof.
  apply (apply_values_without_placeholders (rt := example_runtime)); [reflexivity|].
  intros s Hs. vm_compute in Hs. destruct Hs as [<-|[]]. reflexivity.
Defined.

Lemma apply_values_context_frame_witness :
  apply_values (VList [VStr "{{a}}"; VStr "x{{b}}"]) [("a", VInt 1); ("c", VInt 3)]
  = apply_values (VList [VStr "{{a}}"; VStr "x{{b}}"]) [("c", VNone); ("a", VInt 1)].
Proof.
  apply (apply_values_context_frame (rt := example_runtime)).
  intros s p Hs Hp. vm_compute in Hs.
  destruct Hs as [<-|[<-|[]]]; vm_compute in Hp; destruct Hp as [<-|[]]; reflexivity.
Defined.

Lemma apply_values_keeps_block_placeholders_witness :
  apply_values (VStr "{{ prefect.blocks.secret.my-secret }}")
    [("prefect.blocks.secret.my-secret", VStr "leak")]
  = VStr "{{ prefect.blocks.secret.my-secret }}".
Proof.
  apply (apply_values_keeps_block_placeholders (rt := example_runtime)
           [("prefect.blocks.secret.my-secret", VStr "leak")]
           example_client example_client "{{ prefect.blocks.secret.my-secret }}").
  intros p Hp. vm_compute in Hp. destruct Hp as [<-|[]]. reflexivity.
Defined.

(** ** One placeholder to substitute *)

(** [replace] by the text of a placeholder, on any string: it replaces the
    tokens of that text and no other part of the string. *)
Lemma replace_ne_tokens (olds new wo1 nmo wo2 s : string) :
  shaped wo1 nmo wo2 = true ->
  String "{" olds = placeholder_text wo1 nmo wo2 ->
  replace_ne "{" olds new s
  = flatten (map (subst_token (String "{" olds) new) (tokens s)).
Proof.
  intros Hshaped Hold.
  remember (String.length s) as n eqn:Hn.
  revert s Hn; induction n as [n IH] using lt_wf_ind; intros s Hn.
  destruct s as [|c s']; [now rewrite tokens_equation_1, replace_ne_equation_1|].
  rewrite tokens_cons.
  destruct (match_placeholder (String c s')) as [[[full nm] rest]|] eqn:E.
  - pose proof (match_placeholder_length _ _ _ _ E) as Hlen.
    pose proof (match_placeholder_sound _ _ _ _ E) as (ws1 & ws2 & Hs & Hfull & Happ).
    rewrite Happ. cbn [map flatten token_text subst_token].
    destruct (String.eqb_spec full (String "{" olds)) as [Heq|Hne];
      cbn [token_text].
    + rewrite Heq, replace_ne_head. f_equal.
      apply (IH (String.length rest)); [subst n; exact Hlen|reflexivity].
    + rewrite Hfull in *.
      rewrite (replace_ne_other_placeholder olds new wo1 nmo wo2 Hshaped Hold)
        by assumption.
      f_equal. apply (IH (String.length rest)); [subst n; exact Hlen|reflexivity].
  - rewrite replace_ne_cons.
    destruct (strip_prefix (String "{" olds) (String c s')) as [r|] eqn:Ep.
    + exfalso. apply strip_prefix_app in Ep.
      pose proof (match_placeholder_complete wo1 nmo wo2 r Hshaped) as M.
      rewrite <- Hold, <- Ep, E in M. discriminate M.
    + cbn [map flatten token_text subst_token append]. f_equal.
      apply (IH (String.length s')); [subst n; simpl; lia|reflexivity].
Qed.

Section OneToSubstitute.

Context {rt : PyRuntime}.
Variable values : dict.

Lemma fold_left_interpolate_step_one (l : list Placeholder) (p : Placeholder)
  (r template : string) :
  NoDup l ->
  rendering_of values p = Some r ->
  (forall q, In q l -> q <> p -> rendering_of values q = None) ->
  fold_left (interpolate_step values) l template
  = if in_dec Placeholder_eq_dec p l then replace (full_match p) r template
    else template.
Proof.
  intros Hnd Hp. revert template.
  induction Hnd as [|q l Hq Hnd IH]; intros template Hother; [reflexivity|].
  cbn [fold_left]. rewrite interpolate_step_rendering.
  assert (Hl : forall q', In q' l -> q' <> p -> rendering_of values q' = None)
    by (intros q' Hq'; apply Hother; now right).
  destruct (Placeholder_eq_dec q p) as [->|Hne].
  - rewrite Hp. rewrite fold_left_interpolate_step_none.
    + destruct (in_dec Placeholder_eq_dec p (p :: l)) as [_|Hnot];
        [reflexivity|exfalso; apply Hnot; now left].
    + intros q' Hq'. apply Hl; [assumption|]. intros ->. contradiction.
  - rewrite (Hother q) by (auto; now left). rewrite (IH template Hl).
    destruct (in_dec Placeholder_eq_dec p l) as [Hin|Hnin];
      destruct (in_dec Placeholder_eq_dec p (q :: l)) as [Hin'|Hnin'];
      try reflexivity.
    + exfalso. apply Hnin'. now right.
    + exfalso. destruct Hin' as [E|Hin']; [now apply Hne|contradiction].
Qed.

(** When at most one placeholder of a string has a value to put in, the
    result is the interpolation of the string, whatever stands around the
    placeholders and in the rendering. *)
Theorem apply_values_interpolates_one (template : string) :
  find_placeholders_str template <> [] ->
  is_single_standard template = false ->
  (forall p q, In p (find_placeholders_str template) ->
               In q (find_placeholders_str template) ->
               rendering values (name p) <> None ->
               rendering values (name q) <> None -> p = q) ->
  apply_values (VStr template) values = VStr (interpolate values template).
Proof.
  intros Hfound Hmixed Hone.
  assert (Happly : apply_values (VStr template) values
                   = VStr (fold_left (interpolate_step values)
                             (set_iter (find_placeholders_str template)) template)).
  { cbn [apply_values]. unfold apply_values_str.
    unfold is_single_standard in Hmixed.
    destruct (find_placeholders_str template) as [|p [|q others]];
      [contradiction| |reflexivity].
    cbn [andb]. now rewrite Hmixed. }
  rewrite Happly. f_equal. clear Happly Hfound Hmixed.
  set (l := set_iter (find_placeholders_str template)).
  assert (Hl : forall p, In p l <-> In p (find_placeholders_str template)).
  { intros p. unfold l. split; apply Permutation_in;
      [apply set_iter_perm | apply Permutation_sym, set_iter_perm]. }
  assert (Hnd : NoDup l).
  { unfold l. apply (Permutation_NoDup (Permutation_sym (set_iter_perm _))).
    apply NoDup_nodup. }
  pose proof (tokens_placeholders_sound template) as Hs.
  rewrite Forall_forall in Hs.
  destruct (existsb (fun p => match rendering_of values p with
                              | Some _ => true | None => false end) l) eqn:Hex.
  - apply existsb_exists in Hex. destruct Hex as (p & Hp & Hr).
    destruct (rendering_of values p) as [r|] eqn:Er; [clear Hr|discriminate].
    pose proof (proj1 (Hl p) Hp) as Hp'.
    pose proof (rendering_of_found values template p Hp') as Erp. rewrite Er in Erp.
    rewrite (fold_left_interpolate_step_one l p r template Hnd Er).
    + destruct (in_dec Placeholder_eq_dec p l) as [_|Hnot]; [|contradiction].
      destruct (found_sound template p Hp') as (wo1 & wo2 & Hshaped & Hfull).
      assert (Hold : exists olds, full_match p = String "{" olds)
        by (rewrite Hfull; eexists; reflexivity).
      destruct Hold as [olds Hold]. rewrite Hold. cbn [replace].
      rewrite (replace_ne_tokens olds r wo1 (name p) wo2 template Hshaped)
        by congruence.
      unfold interpolate. f_equal. apply map_ext_in. intros [text|full nm] Hin;
        [reflexivity|].
      cbn [subst_token render].
      destruct (Hs _ Hin) as (ws1 & ws2 & Hshaped' & Hfull').
      assert (Hq : In (mkPlaceholder full nm (determine_placeholder_type nm))
                     (find_placeholders_str template))
        by (apply find_placeholders_str_tokens; now exists full, nm).
      destruct (String.eqb_spec full (String "{" olds)) as [Heq|Hne].
      * assert (nm = name p)
          by (apply (placeholder_text_name ws1 nm ws2 wo1 (name p) wo2); congruence).
        subst nm. now rewrite <- Erp.
      * destruct (rendering values nm) as [r'|] eqn:Er'; [|reflexivity].
        exfalso. apply Hne. rewrite <- Hold.
        change full with (full_match (mkPlaceholder full nm (determine_placeholder_type nm))).
        f_equal. apply Hone; try assumption; cbn [name]; congruence.
    + intros q Hq Hne.
      destruct (rendering_of values q) as [r'|] eqn:Er'; [|reflexivity].
      exfalso. apply Hne.
      pose proof (proj1 (Hl q) Hq) as Hq'.
      apply Hone; try assumption;
        [rewrite <- (rendering_of_found values template q Hq')
        |rewrite <- (rendering_of_found values template p Hp')]; congruence.
  - assert (Hnone : forall p, In p l -> rendering_of values p = None).
    { intros p Hp. destruct (rendering_of values p) eqn:Er; [|reflexivity].
      exfalso. rewrite <- not_true_iff_false in Hex. apply Hex.
      apply existsb_exists. exists p. now rewrite Er. }
    rewrite (fold_left_interpolate_step_none values l template Hnone).
    rewrite <- (flatten_tokens template) at 1.
    unfold interpolate. f_equal. rewrite <- (map_id (tokens template)) at 1.
    apply map_ext_in. intros [text|full nm] Hin; [reflexivity|].
    cbn [render].
    assert (Hq : In (mkPlaceholder full nm (determine_placeholder_type nm)) l)
      by (apply Hl, find_placeholders_str_tokens; now exists full, nm).
    pose proof (Hnone _ Hq) as Er.
    rewrite (rendering_of_found values template _ (proj1 (Hl _) Hq)) in Er.
    cbn [name] in Er. now rewrite Er.
Qed.

End OneToSubstitute.


Lemma apply_values_interpolates_one_witness :
  no_stray_brace "{a: {{x}}, b: {{ y }}}" = false
  /\ apply_values (VStr "{a: {{x}}, b: {{ y }}}") [("x", VStr "{{ y }}")]
     = VStr "{a: {{ y }}, b: {{ y }}}".
Proof.
  split; [reflexivity|].
  rewrite (apply_values_interpolates_one (rt := example_runtime)
             [("x", VStr "{{ y }}")] "{a: {{x}}, b: {{ y }}}").
  - reflexivity.
  - vm_compute. discriminate.
  - reflexivity.
  - intros p q Hp Hq. vm_compute in Hp, Hq.
    destruct Hp as [<-|[<-|[]]]; destruct Hq as [<-|[<-|[]]];
      vm_compute; intros H1 H2; try reflexivity;
      first [now contradiction H1 | now contradiction H2].
Defined.

(** ** Values without references *)

Lemma resolve_list_items (ambient client : Client) (l : list value) :
  resolve_block_document_references ambient client (VList l)
  = (items <- resolve_items (resolve_block_document_references ambient client) l ;;
     ret (VList items)).
Proof.
  cbn [resolve_block_document_references].
  change (@ret (list value) []) with (@pair (list call) (result (list value)) [] (Ok [])).
  rewrite (fold_left_resolve_items
             (resolve_block_document_references ambient client) l [] []).
  unfold bind, ret.
  destruct (resolve_items _ l) as [log [r|e]]; simpl; now rewrite ?app_nil_r.
Qed.

Lemma resolve_of_reference_object (ambient client : Client) (id : value) :
  truthy id = true ->
  resolve_block_document_references ambient client (reference_object id)
  = await (ReadBlockDocument id) (read_block_document client id).
Proof.
  intros Hid. unfold reference_object.
  change (resolve_block_document_references ambient client
            (VDict [("$ref", VDict [("block_document_id", id)])]))
    with (if truthy id
          then await (ReadBlockDocument id) (read_block_document client id)
          else
            updated_template <-
              fold_left
                (fun acc '(key, v) =>
                   updated_template <- acc ;;
                   updated_value <- resolve_block_document_references ambient ambient v ;;
                   ret (dict_set updated_template key updated_value))
                [("$ref", VDict [("block_document_id", id)])] (ret []) ;;
            ret (VDict updated_template)).
  now rewrite Hid.
Qed.

(** A sequence of reference objects resolves to the sequence of the data
    of their block documents: one call for each, from first to last and
    with the client given, also for an id that comes twice; nothing is
    dropped and the order is kept.  The first id that the client does not
    find ends the call with the client's error, after the calls up to and
    including that one and none for the items behind it. *)
Theorem resolve_reference_sequence
  (ambient client : Client) (ids data : list value) :
  Forall (fun id => truthy id = true) ids ->
  Forall2 (fun id found => read_block_document client id = Found found) ids data ->
  resolve_block_document_references ambient client (VList (map reference_object ids))
  = (map ReadBlockDocument ids, Ok (VList data))
  /\ forall missing msg behind,
      truthy missing = true ->
      read_block_document client missing = Failed msg ->
      resolve_block_document_references ambient client
        (VList (map reference_object (ids ++ missing :: behind)))
      = (map ReadBlockDocument (ids ++ [missing]), Raise (ClientError msg)).
Proof.
  intros Htruthy Hfound. rewrite resolve_list_items.
  assert (Hitems :
            resolve_items (resolve_block_document_references ambient client)
              (map reference_object ids)
            = (map ReadBlockDocument ids, Ok data)
            /\ forall missing msg behind,
                truthy missing = true ->
                read_block_document client missing = Failed msg ->
                resolve_items (resolve_block_document_references ambient client)
                  (map reference_object (ids ++ missing :: behind))
                = (map ReadBlockDocument (ids ++ [missing]), Raise (ClientError msg))).
  { induction Hfound as [|id found ids data Hid Hrest IH].
    - split; [reflexivity|]. intros missing msg behind Hm Hfail.
      cbn [app map resolve_items]. rewrite (resolve_of_reference_object _ _ _ Hm).
      unfold await, bind. now rewrite Hfail.
    - inversion Htruthy as [|? ? Ht Hts]; subst.
      destruct (IH Hts) as [IH1 IH2]. split.
      + cbn [map resolve_items]. rewrite (resolve_of_reference_object _ _ _ Ht), IH1.
        unfold await, bind, ret. rewrite Hid. cbn [app]. now rewrite app_nil_r.
      + intros missing msg behind Hm Hfail.
        cbn [app map resolve_items].
        rewrite (resolve_of_reference_object _ _ _ Ht), (IH2 missing msg behind Hm Hfail).
        unfold await, bind. now rewrite Hid. }
  destruct Hitems as [H1 H2]. split.
  - rewrite H1. unfold bind, ret. now rewrite app_nil_r.
  - intros missing msg behind Hm Hfail.
    now rewrite resolve_list_items, (H2 missing msg behind Hm Hfail).
Qed.

Lemma resolve_reference_sequence_witness :
  Forall (fun id => truthy id = true) [VStr "abc"; VStr "abc"]
  /\ resolve_block_document_references example_client example_client
       (VList [reference_object (VStr "abc"); reference_object (VStr "abc")])
     = ([ReadBlockDocument (VStr "abc"); ReadBlockDocument (VStr "abc")],
        Ok (VList [VDict [("k", VInt 1)]; VDict [("k", VInt 1)]]))
  /\ resolve_block_document_references example_client example_client
       (VList [reference_object (VStr "abc"); reference_object (VStr "abc");
               reference_object (VStr "xyz"); reference_object (VStr "abc")])
     = ([ReadBlockDocument (VStr "abc"); ReadBlockDocument (VStr "abc");
         ReadBlockDocument (VStr "xyz")],
        Raise (ClientError "not found")).
Proof.
  assert (Ht : Forall (fun id => truthy id = true) [VStr "abc"; VStr "abc"])
    by (repeat constructor).
  assert (Hf : Forall2 (fun id found =>
                          read_block_document example_client id = Found found)
                 [VStr "abc"; VStr "abc"]
                 [VDict [("k", VInt 1)]; VDict [("k", VInt 1)]])
    by (repeat constructor).
  pose proof (resolve_reference_sequence example_client example_client
                [VStr "abc"; VStr "abc"] _ Ht Hf) as [H1 H2].
  split; [exact Ht|]. split; [exact H1|].
  exact (H2 (VStr "xyz") "not found" [VStr "abc"] eq_refl eq_refl).
Defined.

Lemma resolve_items_unchanged (f : value -> M value) (l : list value) :
  Forall (fun x => f x = ([], Ok x)) l -> resolve_items f l = ([], Ok l).
Proof.
  induction 1 as [|x l Hx _ IH]; simpl; [reflexivity|]. now rewrite Hx, IH.
Qed.

Lemma resolve_values_unchanged (f : value -> M value) (d : dict) :
  Forall (fun kv => f (snd kv) = ([], Ok (snd kv))) d -> resolve_values f d = ([], Ok d).
Proof.
  induction 1 as [|[k x] d Hx _ IH]; simpl in *; [reflexivity|]. now rewrite Hx, IH.
Qed.

Lemma dict_get_absent {A : Type} (d : list (string * A)) (k : string) :
  existsb (String.eqb k) (keys d) = false -> dict_get d k = None.
Proof.
  induction d as [|[k' v] d IH]; simpl; [reflexivity|].
  intros H. apply orb_false_iff in H. destruct H as [Hk Hd].
  rewrite String.eqb_sym, Hk. now apply IH.
Qed.

Lemma resolve_reference_free (ambient : Client) (t : value) :
  reference_free t = true ->
  forall client, resolve_block_document_references ambient client t = ([], Ok t).
Proof.
  induction t as [| | | | s | l IH | d IH |] using value_ind';
    intros Hfree client; try reflexivity.
  - simpl in *. apply resolve_str_no_block. now apply negb_true_iff.
  - rewrite resolve_list_items, resolve_items_unchanged; [reflexivity|].
    simpl in Hfree. rewrite forallb_forall in Hfree.
    rewrite Forall_forall in *. intros x Hx. apply (IH x Hx (Hfree x Hx)).
  - simpl in Hfree.
    apply andb_true_iff in Hfree. destruct Hfree as [Hfree Hvalues].
    apply andb_true_iff in Hfree. destruct Hfree as [Href Hkeys].
    apply negb_true_iff in Href.
    rewrite (resolve_dict_ordinary ambient client d VNone);
      [|now apply distinct_NoDup
       |unfold get_block_document_id; now rewrite (dict_get_absent d "$ref" Href)
       |reflexivity].
    rewrite resolve_values_unchanged; [reflexivity|].
    rewrite forallb_forall in Hvalues.
    rewrite Forall_forall in *. intros [k x] Hx.
    apply (IH (k, x) Hx (Hvalues (k, x) Hx)).
Qed.

(** A value in which nothing refers to a block document is returned as it
    is, and no call is made to the client. *)
Theorem resolve_without_references (ambient client : Client) (t : value) :
  reference_free t = true ->
  resolve_block_document_references ambient client t = ([], Ok t).
Proof.
  intros Hfree. now apply resolve_reference_free.
Qed.

Lemma resolve_without_references_witness :
  resolve_block_document_references example_client example_client
    (VDict [("a", VList [VStr "{{ x }} and {{y}}"; VNone]); ("ref", VDict [("$id", VInt 1)])])
  = ([], Ok (VDict [("a", VList [VStr "{{ x }} and {{y}}"; VNone]);
                    ("ref", VDict [("$id", VInt 1)])])).
Proof.
  apply resolve_without_references. reflexivity.
Defined.

(** A mapping whose ["$ref"] is not a mapping makes the call raise the
    attribute error, whatever else the mapping holds, before any call to
    the client. *)
Theorem resolve_ref_not_a_mapping (ambient client : Client) (d : dict) (v : value) :
  dict_get d "$ref" = Some v ->
  (forall ref, v <> VDict ref) ->
  resolve_block_document_references ambient client (VDict d)
  = ([], Raise AttributeError_get).
Proof.
  intros Href Hv. cbn [resolve_block_document_references].
  unfold get_block_document_id. rewrite Href.
  destruct v; try reflexivity. now contradiction (Hv d0).
Qed.

Lemma resolve_ref_not_a_mapping_witness :
  resolve_block_document_references example_client example_client
    (VDict [("x", VDict [("$ref", VDict [("block_document_id", VStr "abc")])]);
            ("$ref", VStr "abc")])
  = ([], Raise AttributeError_get).
Proof.
  apply (resolve_ref_not_a_mapping _ _ _ (VStr "abc")); [reflexivity|discriminate].
Defined.

(** ** The calls made *)

Lemma string_lookups_resolve_str (client : Client) (s : string) :
  string_lookups s = fst (resolve_str client s).
Proof.
  unfold string_lookups, resolve_str.
  destruct (find_placeholders_str s) as [|p [|q others]]; try reflexivity.
  - cbn [List.length Nat.eqb orb existsb].
    destruct (PlaceholderType_eqb (type p) BLOCK_DOCUMENT) eqn:Htype; simpl.
    + destruct (String.eqb (full_match p) s); simpl; [|reflexivity].
      now destruct (split "." _) as [|a [|b [|c parts]]].
    + now rewrite andb_false_r.
  - cbn [List.length Nat.eqb orb].
    now destruct (negb _).
Qed.

(** The calls [x] stands for begin with the calls made for it, and are
    those calls when a value is returned. *)
Definition lookups_begin_with (x : value) (m : M value) : Prop :=
  exists rest, lookups x = (fst m ++ rest)%list /\ (succeeded m = true -> rest = []).

Lemma resolve_items_lookups (f : value -> M value) (l : list value) :
  Forall (fun x => lookups_begin_with x (f x)) l ->
  exists rest,
    flat_map lookups l = (fst (resolve_items f l) ++ rest)%list
    /\ (succeeded (resolve_items f l) = true -> rest = []).
Proof.
  induction 1 as [|x l Hx _ IH]; [exists []; split; reflexivity|].
  destruct Hx as (rx & Ex & Hrx). destruct IH as (rl & El & Hrl).
  cbn [flat_map resolve_items]. rewrite Ex, El. unfold bind, ret, succeeded in *.
  destruct (f x) as [l1 [v|e]]; cbn [fst snd] in *.
  - rewrite (Hrx eq_refl), app_nil_r.
    destruct (resolve_items f l) as [l2 [r'|e]]; cbn [fst snd] in *.
    + exists rl. rewrite app_nil_r, <- app_assoc. auto.
    + exists rl. rewrite <- app_assoc. split; [reflexivity|discriminate].
  - exists (rx ++ fst (resolve_items f l) ++ rl)%list.
    rewrite <- app_assoc. split; [reflexivity|discriminate].
Qed.

Lemma resolve_values_lookups (f : value -> M value) (d : dict) :
  Forall (fun kv => lookups_begin_with (snd kv) (f (snd kv))) d ->
  exists rest,
    flat_map (fun '(key, x) => lookups x) d = (fst (resolve_values f d) ++ rest)%list
    /\ (succeeded (resolve_values f d) = true -> rest = []).
Proof.
  induction 1 as [|[k x] d Hx _ IH]; [exists []; split; reflexivity|].
  cbn [snd] in Hx.
  destruct Hx as (rx & Ex & Hrx). destruct IH as (rl & El & Hrl).
  cbn [flat_map resolve_values]. rewrite Ex, El. unfold bind, ret, succeeded in *.
  destruct (f x) as [l1 [v|e]]; cbn [fst snd] in *.
  - rewrite (Hrx eq_refl), app_nil_r.
    destruct (resolve_values f d) as [l2 [r'|e]]; cbn [fst snd] in *.
    + exists rl. rewrite app_nil_r, <- app_assoc. auto.
    + exists rl. rewrite <- app_assoc. split; [reflexivity|discriminate].
  - exists (rx ++ fst (resolve_values f d) ++ rl)%list.
    rewrite <- app_assoc. split; [reflexivity|discriminate].
Qed.

(** The loop over a dict makes the calls, and returns or raises, as the
    resolution of its values from first to last does, whatever its keys. *)
Lemma fold_left_resolve_values_log (f : value -> M value) (d acc : dict) (log : list call) :
  let m := fold_left
             (fun m '(key, v) =>
                updated_template <- m ;;
                updated_value <- f v ;;
                ret (dict_set updated_template key updated_value))
             d (log, Ok acc) in
  fst m = (log ++ fst (resolve_values f d))%list
  /\ succeeded m = succeeded (resolve_values f d).
Proof.
  revert acc log; induction d as [|[k v] d IH]; intros acc log.
  - simpl. now rewrite app_nil_r.
  - cbn zeta. cbn [fold_left resolve_values].
    assert (Hs : (updated_template <- (log, Ok acc) ;;
                  updated_value <- f v ;;
                  ret (dict_set updated_template k updated_value))
                 = let (l1, r) := f v in
                   ((log ++ l1)%list,
                    match r with
                    | Ok v' => Ok (dict_set acc k v')
                    | Raise e => Raise e
                    end)).
    { unfold bind, ret.
      destruct (f v) as [l1 [v'|e]]; rewrite ?app_nil_r; reflexivity. }
    rewrite Hs. clear Hs. destruct (f v) as [l1 [v'|e]].
    + destruct (IH (dict_set acc k v') (log ++ l1)%list) as [H1 H2].
      cbn zeta in H1, H2. rewrite H1, H2. unfold bind, ret, succeeded.
      destruct (resolve_values f d) as [l2 [r'|e]]; cbn [fst snd];
        rewrite ?app_nil_r, <- ?app_assoc; auto.
    + rewrite fold_left_raise; [now unfold bind, succeeded|].
      intros log' e' [k' v'']. reflexivity.
Qed.

Lemma resolve_lookups (ambient : Client) (t : value) :
  forall client,
    lookups_begin_with t (resolve_block_document_references ambient client t).
Proof.
  induction t as [| | | | s | l IH | d IH |] using value_ind'; intros client;
    try (exists []; split; reflexivity); unfold lookups_begin_with.
  - exists []. cbn [lookups resolve_block_document_references].
    rewrite app_nil_r. split; [apply string_lookups_resolve_str|reflexivity].
  - rewrite resolve_list_items. cbn [lookups].
    destruct (resolve_items_lookups (resolve_block_document_references ambient client) l)
      as (rest & E & Hrest).
    { rewrite Forall_forall in *. intros x Hx. apply (IH x Hx). }
    exists rest. rewrite E. unfold bind, ret, succeeded in *.
    destruct (resolve_items _ l) as [log [r|e]]; cbn [fst snd] in *;
      rewrite ?app_nil_r; auto.
  - cbn [lookups resolve_block_document_references].
    destruct (get_block_document_id d) as [id|e];
      [|exists []; split; reflexivity].
    destruct (truthy id); [exists []; split; reflexivity|].
    destruct (resolve_values_lookups (resolve_block_document_references ambient ambient) d)
      as (rest & E & Hrest).
    { rewrite Forall_forall in *. intros kv Hkv. apply (IH kv Hkv). }
    destruct (fold_left_resolve_values_log
                (resolve_block_document_references ambient ambient) d [] [])
      as [H1 H2].
    cbn zeta in H1, H2. simpl app in H1.
    change (@ret dict []) with (@pair (list call) (result dict) [] (Ok [])).
    match type of H1 with fst ?m = _ => set (fm := m) in * end.
    exists rest. rewrite E, <- H1. unfold succeeded in *. rewrite <- H2 in Hrest.
    unfold bind, ret.
    destruct fm as [log [r|e]]; cbn [fst snd] in *;
      rewrite ?app_nil_r; auto.
Qed.

(** The calls made to the client are read off the template alone: one for
    each reference object and each block document placeholder string, from
    first to last and as often as they stand there.  When a value is
    returned these are all the calls made; when the call raises, the calls
    made are the first of them. *)
Theorem resolve_makes_the_lookups (ambient client : Client) (t : value) :
  (exists rest,
      lookups t
      = (fst (resolve_block_document_references ambient client t) ++ rest)%list)
  /\ forall log v,
      resolve_block_document_references ambient client t = (log, Ok v) ->
      log = lookups t.
Proof.
  destruct (resolve_lookups ambient t client) as (rest & E & Hrest). split.
  - now exists rest.
  - intros log v H. rewrite H in *. unfold succeeded in Hrest. cbn [fst snd] in *.
    rewrite E, (Hrest eq_refl). now rewrite app_nil_r.
Qed.

Example resolve_makes_the_lookups_ex :
  lookups (VList [VDict [("$ref", VDict [("block_document_id", VStr "abc")])];
                  VDict [("$ref", VDict [("block_document_id", VStr "abc")])];
                  VStr "{{ prefect.blocks.secret.nope }}";
                  VDict [("$ref", VDict [("block_document_id", VStr "abc")])]])
  = [ReadBlockDocument (VStr "abc"); ReadBlockDocument (VStr "abc");
     ReadBlockDocumentByName "nope" "secret"; ReadBlockDocument (VStr "abc")]
  /\ fst (resolve_block_document_references example_client example_client
            (VList [VDict [("$ref", VDict [("block_document_id", VStr "abc")])];
                    VDict [("$ref", VDict [("block_document_id", VStr "abc")])];
                    VStr "{{ prefect.blocks.secret.nope }}";
                    VDict [("$ref", VDict [("block_document_id", VStr "abc")])]]))
     = [ReadBlockDocument (VStr "abc"); ReadBlockDocument (VStr "abc");
        ReadBlockDocumentByName "nope" "secret"].
Proof. split; reflexivity. Qed.

(** ** Failures *)

Lemma resolve_items_succeeded (f : value -> M value) (l : list value) :
  succeeded (resolve_items f l) = forallb (fun x => succeeded (f x)) l.
Proof.
  induction l as [|x l IH]; [reflexivity|].
  cbn [resolve_items forallb]. rewrite <- IH. unfold bind, ret, succeeded.
  destruct (f x) as [l1 [v|e]]; cbn [snd]; [|reflexivity].
  now destruct (resolve_items f l) as [l2 [r|e]].
Qed.

Lemma resolve_values_succeeded (f : value -> M value) (d : dict) :
  succeeded (resolve_values f d) = forallb (fun '(key, x) => succeeded (f x)) d.
Proof.
  induction d as [|[k x] d IH]; [reflexivity|].
  cbn [resolve_values forallb]. rewrite <- IH. unfold bind, ret, succeeded.
  destruct (f x) as [l1 [v|e]]; cbn [snd]; [|reflexivity].
  now destruct (resolve_values f d) as [l2 [r|e]].
Qed.

(** A sequence, and a mapping that is no reference object, is resolved
    exactly when each of its items, or values, is: one failure among them
    fails the whole, and no part of a result is returned. *)
Theorem resolve_all_or_nothing (ambient client : Client) :
  (forall l : list value,
      succeeded (resolve_block_document_references ambient client (VList l))
      = forallb (fun x => succeeded (resolve_block_document_references ambient client x)) l)
  /\ (forall (d : dict) (id : value),
         get_block_document_id d = Ok id ->
         truthy id = false ->
         succeeded (resolve_block_document_references ambient client (VDict d))
         = forallb
             (fun '(key, x) =>
                succeeded (resolve_block_document_references ambient ambient x)) d).
Proof.
  split.
  - intros l. rewrite resolve_list_items, <- resolve_items_succeeded.
    unfold bind, ret, succeeded.
    now destruct (resolve_items _ l) as [log [r|e]].
  - intros d id Hid Hfalsy. rewrite <- resolve_values_succeeded.
    cbn [resolve_block_document_references]. rewrite Hid, Hfalsy.
    destruct (fold_left_resolve_values_log
                (resolve_block_document_references ambient ambient) d [] [])
      as [_ H].
    cbn zeta in H. rewrite <- H.
    change (@ret dict []) with (@pair (list call) (result dict) [] (Ok [])).
    match type of H with succeeded ?m = _ => set (fm := m) in * end.
    unfold bind, ret, succeeded. now destruct fm as [log [r|e]].
Qed.

Lemma resolve_all_or_nothing_witness :
  get_block_document_id [("a", VInt 1); ("b", VStr "x{{ prefect.blocks.s.n }}")] = Ok VNone
  /\ succeeded (resolve_block_document_references example_client example_client
                  (VDict [("a", VInt 1); ("b", VStr "x{{ prefect.blocks.s.n }}")]))
     = false.
Proof.
  split; [reflexivity|].
  rewrite (proj2 (resolve_all_or_nothing example_client example_client)
             [("a", VInt 1); ("b", VStr "x{{ prefect.blocks.s.n }}")] VNone
             eq_refl eq_refl).
  reflexivity.
Defined.

Section UnknownNames.

Context {rt : PyRuntime}.

(** When the context has none of the names of the placeholders of a
    string (the empty context has none), the string is returned as it is,
    unless it is one Standard placeholder on its own, which gives
    [NotSet]. *)
Theorem apply_values_unknown_names (values : dict) (template : string) :
  (forall p, In p (find_placeholders_str template) ->
             dict_get values (name p) = None) ->
  apply_values (VStr template) values
  = if is_single_standard template then VNotSet else VStr template.
Proof.
  intros Hunknown. cbn [apply_values].
  destruct (is_single_standard template) eqn:Hsingle.
  - unfold is_single_standard in Hsingle. unfold apply_values_str.
    destruct (find_placeholders_str template) as [|p [|q others]];
      try discriminate.
    cbn [andb]. rewrite Hsingle. now rewrite (Hunknown p) by now left.
  - apply apply_values_str_none; [assumption|].
    intros p Hp. unfold rendering_of. now rewrite (Hunknown p Hp).
Qed.

End UnknownNames.

Lemma apply_values_unknown_names_witness :
  apply_values (VStr "{{a}} and {{ b }}") [] = VStr "{{a}} and {{ b }}"
  /\ apply_values (VStr "{{ a }}") [("b", VInt 1)] = VNotSet.
Proof.
  split.
  - rewrite (apply_values_unknown_names (rt := example_runtime) [] "{{a}} and {{ b }}");
      [reflexivity|]. intros p _. reflexivity.
  - rewrite (apply_values_unknown_names (rt := example_runtime) [("b", VInt 1)] "{{ a }}");
      [reflexivity|].
    intros p Hp. vm_compute in Hp. destruct Hp as [<-|[]]. reflexivity.
Defined.
